(** * system/ui/text.py: the text wrapper and the text window session

    A shallow embedding of [wrap_text], [TextWindowRenderer.__init__] and the
    [TextWindow] life cycle, with the properties of the specification stated
    over it.

    Conventions of the embedding.
    - A Python [str] is a [string]; a character is a code point below 256 and
      whitespace is what [str.isspace], [str.strip] and the regular expression
      class [\s] agree on for that range.
    - Pixel widths returned by the measurement collaborator are rationals; the
      wrapper only ever compares them with [max_width].
    - The fields of [rl.Vector2] and [rl.Rectangle] are rationals as well;
      the window width and height are integers.
    - The collaborators (font measurement, window shell, worker scheduling) are
      Section variables or explicit inputs; their calls are recorded as a list
      of events. *)

From Stdlib Require Import String Ascii List ZArith QArith Bool Lia Lqa.
Import ListNotations.
Open Scope string_scope.

(** ** Python string primitives used by the module *)

Module PyStr.

(** [str.isspace] / [\s] on code points below 256:
    TAB..CR, FS..US, SPACE, NEL and NBSP. *)
Definition isspace (c : ascii) : bool :=
  let n := N_of_ascii c in
  (((9 <=? n) && (n <=? 13)) || ((28 <=? n) && (n <=? 31))
   || (n =? 32) || (n =? 133) || (n =? 160))%N.

Definition newline : ascii := "010"%char.

(** Truth value of a string and of a list: non-empty. *)
Definition truthy (s : string) : bool :=
  match s with EmptyString => false | String _ _ => true end.

Definition nonempty {A : Type} (l : list A) : bool :=
  match l with [] => false | _ :: _ => true end.

(** [l.append(a)] *)
Definition push {A : Type} (l : list A) (a : A) : list A := (l ++ [a])%list.

(** [s.lstrip()] *)
Fixpoint lstrip (s : string) : string :=
  match s with
  | EmptyString => EmptyString
  | String c s' => if isspace c then lstrip s' else s
  end.

(** [s.rstrip()] *)
Fixpoint rstrip (s : string) : string :=
  match s with
  | EmptyString => EmptyString
  | String c s' =>
      match rstrip s' with
      | EmptyString => if isspace c then EmptyString else String c EmptyString
      | r => String c r
      end
  end.

(** [s.strip()] *)
Definition strip (s : string) : string := lstrip (rstrip s).

(** [re.match(r"^\s*", s).group()]: the longest whitespace prefix. *)
Fixpoint re_match_spaces (s : string) : string :=
  match s with
  | EmptyString => EmptyString
  | String c s' => if isspace c then String c (re_match_spaces s') else EmptyString
  end.

(** [s[n:]] *)
Fixpoint slice_from (n : nat) (s : string) : string :=
  match n, s with
  | O, _ => s
  | S _, EmptyString => EmptyString
  | S n', String _ s' => slice_from n' s'
  end.

(** [s.split("\n")]: never empty, one more piece than there are newlines. *)
Fixpoint split_newline (s : string) : list string :=
  match s with
  | EmptyString => [EmptyString]
  | String c s' =>
      if Ascii.eqb c newline then EmptyString :: split_newline s'
      else match split_newline s' with
           | [] => [String c EmptyString]
           | p :: ps => String c p :: ps
           end
  end.

(** [re.split("(\s+)", s)]: the pieces between maximal whitespace runs,
    with the runs themselves kept in between (capturing group).  The first
    and the last piece are empty when [s] starts or ends with whitespace. *)
Fixpoint re_split_spaces (s : string) : list string :=
  match s with
  | EmptyString => [EmptyString]
  | String c s' =>
      match re_split_spaces s' with
      | [] => [String c EmptyString]
      | w :: rest =>
          if isspace c then
            match w, rest with
            | EmptyString, sep :: rest' => EmptyString :: String c sep :: rest'
            | _, _ => EmptyString :: String c EmptyString :: w :: rest
            end
          else String c w :: rest
      end
  end.

End PyStr.

Import PyStr.

(** ** Values of the rendering library *)

(** [rl.Vector2] *)
Record Vector2 : Type := { x : Q; y : Q }.

(** [rl.Rectangle] *)
Module Rectangle.
Record t : Type := { x : Q; y : Q; width : Q; height : Q }.
End Rectangle.

(** The two-argument [max(a, b)] of Python: [a] unless [b] is greater. *)
Definition py_max (a b : Q) : Q := if Qle_bool b a then a else b.

Definition MARGIN : Q := 8.
Definition SPACING : Q := 12.
Definition FONT_SIZE : Q := 64.
Definition LINE_HEIGHT : Q := 72.

(** Modelled from the spec: the scroll panel class lives in
    [system/ui/lib/scroll_panel.py]; the spec describes it as "internally
    stateful across frames", configurable with a "show vertical scrollbar"
    option and supporting a "direct initial-offset override".  Only the two
    attributes this module touches are kept; the offset the constructor starts
    from is an input ([scroll_origin] below). *)
Record GuiScrollPanel : Type := {
  _show_vertical_scroll_bar : bool;
  _offset : Vector2
}.

(** What the worker thread asks of the window shell ([gui_app]). *)
Inductive gui_call : Type :=
| InitWindow (title : string)   (* gui_app.init_window(title) *)
| RenderFrame                   (* renderer.render() on one frame *)
| CloseWindow.                  (* gui_app.close() *)

(** What the creating thread does besides reading the session. *)
Inductive main_call : Type :=
| StopEventSet                  (* self._stop_event.set() *)
| ThreadJoin (timeout : Q)      (* self._thread.join(timeout=...) *)
| PrintLine (message : string). (* print(message) *)

(** One tick of the lazy frame sequence [gui_app.render()]: either the window
    was closed (the sequence ends) or a frame is available, on which
    [renderer.render()] returns or raises. *)
Inductive tick : Type :=
| WindowClosed
| Frame (render_raises : bool).

Inductive outcome : Type := Returned | Raised.

(** Where the worker thread stands. *)
Inductive thread : Type :=
| Started                 (* start() was called, [_run] not yet entered *)
| WindowOpen              (* after gui_app.init_window *)
| InLoop (frame : nat)    (* inside try/for, about to ask for tick [frame] *)
| Finished (o : outcome). (* is_alive() is False from here on *)

Section Collaborators.

(** The font handle and the measurement operation of the rendering
    collaborator: [rl.measure_text_ex(font, text, font_size, spacing)]. *)
Variable Font : Type.
Variable measure_text_ex : Font -> string -> Q -> Q -> Vector2.
(** [gui_app.font()] *)
Variable gui_app_font : Font.
(** [gui_app.width], [gui_app.height] *)
Variable gui_app_width gui_app_height : Z.
(** The offset a fresh [GuiScrollPanel] holds. *)
Variable scroll_origin : Vector2.
(** [os.getenv("CI")] *)
Variable getenv_CI : option string.
(** The ticks [gui_app.render()] produces, in order. *)
Variable frames : nat -> tick.

(** *** wrap_text *)

(** One turn of the [while len(words)] loop, after [word] and the token that
    follows it (or [""]) were popped. *)
Definition place_word (font_size max_width : Q)
    (st : list string * string) (word sep : string) : list string * string :=
  let '(lines, current_line) := st in
  let test_line := current_line ++ word ++ sep in
  if Qle_bool (x (measure_text_ex gui_app_font test_line font_size 0)) max_width
  then (lines, test_line)
  else (push lines current_line, word ++ " ").

Fixpoint wrap_words (font_size max_width : Q) (words : list string)
    (st : list string * string) : list string * string :=
  match words with
  | [] => st
  | [word] => place_word font_size max_width st word ""
  | word :: sep :: words' =>
      wrap_words font_size max_width words' (place_word font_size max_width st word sep)
  end.

(** The body of [for paragraph in text.split("\n")]. *)
Definition wrap_paragraph (font_size max_width : Q)
    (lines : list string) (paragraph : string) : list string :=
  if negb (truthy (strip paragraph)) then
    if nonempty lines then push lines "" else lines
  else
    let indent := re_match_spaces paragraph in
    let words := re_split_spaces (slice_from (String.length indent) paragraph) in
    let '(lines, current_line) := wrap_words font_size max_width words (lines, indent) in
    let current_line := rstrip current_line in
    if truthy current_line then push lines current_line else lines.

Definition wrap_text (text : string) (font_size max_width : Q) : list string :=
  fold_left (wrap_paragraph font_size max_width) (split_newline text) [].

(** *** TextWindowRenderer *)

Record TextWindowRenderer : Type := {
  _textarea_rect : Rectangle.t;
  _wrapped_lines : list string;
  _content_rect : Rectangle.t;
  _scroll_panel : GuiScrollPanel
}.

(** [TextWindowRenderer.__init__] *)
Definition TextWindowRenderer__init__ (text : string) : TextWindowRenderer :=
  let textarea_rect :=
    {| Rectangle.x := MARGIN; Rectangle.y := 0;
       Rectangle.width := inject_Z gui_app_width - MARGIN;
       Rectangle.height := inject_Z gui_app_height |} in
  let wrapped_lines :=
    wrap_text text FONT_SIZE (Rectangle.width textarea_rect - 20) in
  let content_rect :=
    {| Rectangle.x := 0; Rectangle.y := 0;
       Rectangle.width := Rectangle.width textarea_rect - 20;
       Rectangle.height :=
         inject_Z (Z.of_nat (List.length wrapped_lines)) * LINE_HEIGHT |} in
  let scroll_panel :=
    {| _show_vertical_scroll_bar := true; _offset := scroll_origin |} in
  let scroll_panel :=
    {| _show_vertical_scroll_bar := _show_vertical_scroll_bar scroll_panel;
       _offset :=
         {| x := x (_offset scroll_panel);
            y := - py_max (Rectangle.height content_rect
                           - Rectangle.height textarea_rect) 0 |} |} in
  {| _textarea_rect := textarea_rect;
     _wrapped_lines := wrapped_lines;
     _content_rect := content_rect;
     _scroll_panel := scroll_panel |}.

(** *** TextWindow *)

(** The session object together with the history of what was asked of the
    window shell.  [_thread] is the worker; everything else is shared between
    the worker and the creating thread. *)
Record TextWindow : Type := {
  _text : string;
  _renderer : option TextWindowRenderer;
  _stop_event : bool;
  _thread : thread;
  gui_app : list gui_call
}.

Definition is_alive (self : TextWindow) : bool :=
  match _thread self with Finished _ => false | _ => true end.

Definition gui (c : gui_call) (self : TextWindow) : TextWindow :=
  {| _text := _text self; _renderer := _renderer self;
     _stop_event := _stop_event self; _thread := _thread self;
     gui_app := push (gui_app self) c |}.

Definition goto (t : thread) (self : TextWindow) : TextWindow :=
  {| _text := _text self; _renderer := _renderer self;
     _stop_event := _stop_event self; _thread := t;
     gui_app := gui_app self |}.

Definition publish (r : TextWindowRenderer) (self : TextWindow) : TextWindow :=
  {| _text := _text self; _renderer := Some r;
     _stop_event := _stop_event self; _thread := _thread self;
     gui_app := gui_app self |}.

Definition stop_event_set (self : TextWindow) : TextWindow :=
  {| _text := _text self; _renderer := _renderer self;
     _stop_event := true; _thread := _thread self;
     gui_app := gui_app self |}.

(** [TextWindow._run], one atomic step of the worker at a time.  The
    [finally] clause is the [gui CloseWindow] on each of the three ways out
    of the loop. *)
Definition _run (self : TextWindow) : TextWindow :=
  match _thread self with
  | Started =>
      match getenv_CI with
      | Some _ => goto (Finished Returned) self
      | None => goto WindowOpen (gui (InitWindow "Text") self)
      end
  | WindowOpen =>
      goto (InLoop 0) (publish (TextWindowRenderer__init__ (_text self)) self)
  | InLoop i =>
      match frames i with
      | WindowClosed => goto (Finished Returned) (gui CloseWindow self)
      | Frame render_raises =>
          if _stop_event self then
            goto (Finished Returned) (gui CloseWindow self)
          else if render_raises then
            goto (Finished Raised) (gui CloseWindow (gui RenderFrame self))
          else goto (InLoop (S i)) (gui RenderFrame self)
      end
  | Finished _ => self
  end.

(** The worker advancing by [n] steps while the creating thread waits. *)
Fixpoint run_worker (n : nat) (self : TextWindow) : TextWindow :=
  match n with
  | O => self
  | S n' => run_worker n' (_run self)
  end.

(** The session right after [self._thread.start()]. *)
Definition created (text : string) : TextWindow :=
  {| _text := text; _renderer := None; _stop_event := false;
     _thread := Started; gui_app := [] |}.

Definition is_None {A : Type} (o : option A) : bool :=
  match o with None => true | Some _ => false end.

(** [while self._renderer is None and self._thread.is_alive(): time.sleep(0.01)].
    [pace k] is the number of steps the worker makes before the creating
    thread evaluates the condition for the [k]-th time; [fuel] bounds the
    number of evaluations. *)
Fixpoint wait_for_renderer (fuel : nat) (pace : nat -> nat) (k : nat)
    (self : TextWindow) : option TextWindow :=
  match fuel with
  | O => None
  | S fuel' =>
      let self := run_worker (pace k) self in
      if is_None (_renderer self) && is_alive self
      then wait_for_renderer fuel' pace (S k) self
      else Some self
  end.

(** [TextWindow.__init__] *)
Definition TextWindow__init__ (fuel : nat) (pace : nat -> nat) (text : string)
    : option TextWindow :=
  wait_for_renderer fuel pace 0 (created text).

(** [TextWindow.close]; [during_join] is the number of steps the worker makes
    while the creating thread is blocked in [join]. *)
Definition close (during_join : nat) (self : TextWindow)
    : TextWindow * list main_call :=
  if is_alive self then
    let self := stop_event_set self in
    let self := run_worker during_join self in
    if is_alive self
    then (self, [StopEventSet; ThreadJoin 2;
                 PrintLine "WARNING: failed to join text window thread"])
    else (self, [StopEventSet; ThreadJoin 2])
  else (self, []).

(** What the session can do in one move: the worker makes a step, or another
    thread sets the stop flag. *)
Inductive move : TextWindow -> TextWindow -> Prop :=
| move_worker self : move self (_run self)
| move_stop self : move self (stop_event_set self).

Inductive reachable (text : string) : TextWindow -> Prop :=
| reach_created : reachable text (created text)
| reach_move s s' : reachable text s -> move s s' -> reachable text s'.

End Collaborators.

Arguments wrap_text {Font} _ _ _ _ _.
Arguments wrap_paragraph {Font} _ _ _ _ _ _.
Arguments wrap_words {Font} _ _ _ _ _ _.
Arguments place_word {Font} _ _ _ _ _ _ _.
Arguments TextWindowRenderer__init__ {Font} _ _ _ _ _ _.
Arguments _run {Font} _ _ _ _ _ _ _ _.
Arguments run_worker {Font} _ _ _ _ _ _ _ _ _.
Arguments wait_for_renderer {Font} _ _ _ _ _ _ _ _ _ _ _.
Arguments TextWindow__init__ {Font} _ _ _ _ _ _ _ _ _ _.
Arguments close {Font} _ _ _ _ _ _ _ _ _.
Arguments move {Font} _ _ _ _ _ _ _ _ _.
Arguments reachable {Font} _ _ _ _ _ _ _ _ _.

(** ** Notions the properties are stated with *)

(** A line fits when its measured width is at most [max_width]. *)
Definition fits {Font : Type} (measure_text_ex : Font -> string -> Q -> Q -> Vector2)
    (font : Font) (font_size max_width : Q) (line : string) : Prop :=
  (x (measure_text_ex font line font_size 0) <= max_width)%Q.

(** Measurement is monotone in string extension. *)
Definition monotone {Font : Type} (measure_text_ex : Font -> string -> Q -> Q -> Vector2)
    : Prop :=
  forall font s t size spacing,
    (x (measure_text_ex font s size spacing)
     <= x (measure_text_ex font (s ++ t) size spacing))%Q.

Fixpoint all_space (s : string) : bool :=
  match s with
  | EmptyString => true
  | String c s' => isspace c && all_space s'
  end.

Fixpoint no_space (s : string) : bool :=
  match s with
  | EmptyString => true
  | String c s' => negb (isspace c) && no_space s'
  end.

Fixpoint no_newline (s : string) : bool :=
  match s with
  | EmptyString => true
  | String c s' => negb (Ascii.eqb c newline) && no_newline s'
  end.

Definition starts_word (s : string) : bool :=
  match s with
  | EmptyString => false
  | String c _ => negb (isspace c)
  end.

(** The words of a text: its maximal runs of non-whitespace characters, in
    order (what [str.split()] returns). *)
Fixpoint tokens (s : string) : list string :=
  match s with
  | EmptyString => []
  | String c s' =>
      if isspace c then tokens s'
      else if starts_word s' then
        match tokens s' with
        | w :: ws => String c w :: ws
        | [] => [String c EmptyString]
        end
      else String c EmptyString :: tokens s'
  end.

(** The words of a list of display lines, line after line. *)
Definition words_of (lines : list string) : list string := flat_map tokens lines.

(** Pieces joined back with newlines: the inverse of [split_newline]. *)
Fixpoint join_newline (ps : list string) : string :=
  match ps with
  | [] => EmptyString
  | [p] => p
  | p :: ps' => p ++ String newline (join_newline ps')
  end.

(** A current line is closed when whatever is appended to it starts a new
    word: it is empty, or it ends with whitespace. *)
Definition closed (cur : string) : Prop :=
  forall t, tokens (cur ++ t) = (tokens cur ++ tokens t)%list.

(** All pieces of a list put back together. *)
Fixpoint glue (l : list string) : string :=
  match l with
  | [] => EmptyString
  | p :: l' => p ++ glue l'
  end.

(** The shape of what [re_split_spaces] returns: words and whitespace runs in
    turn, starting and ending with a word; only the first and the last word
    may be empty. *)
Inductive inner : list string -> Prop :=
| inner_last w : inner [w]
| inner_more w rest : truthy w = true -> inner (w :: rest).

Inductive pieces : list string -> Prop :=
| pieces_last w : no_space w = true -> pieces [w]
| pieces_more w sep rest :
    no_space w = true -> all_space sep = true -> truthy sep = true ->
    pieces rest -> inner rest -> pieces (w :: sep :: rest).

(** How often the window was released. *)
Definition is_close (c : gui_call) : bool :=
  match c with CloseWindow => true | _ => false end.

Definition closes (calls : list gui_call) : nat :=
  List.length (filter is_close calls).

(** A concrete measurement used in examples: every character is ten pixels
    wide, whatever the font and the size. *)
Definition fixed_width (_ : unit) (s : string) (_ _ : Q) : Vector2 :=
  {| x := inject_Z (10 * Z.of_nat (String.length s)); y := 1 |}.

Definition nl : string := String newline EmptyString.

(** The session a headless run ends in: the worker returned, nothing else
    happened. *)
Definition skipped_session (text : string) : TextWindow :=
  goto (Finished Returned) (created text).

(** Concrete collaborators used in examples: a scroll panel that starts at the
    origin, a window that delivers two frames and is then closed, one whose
    second frame fails to render, and one that is never closed. *)
Definition origin : Vector2 := {| x := 0; y := 0 |}.

Definition two_frames (i : nat) : tick :=
  if (i <? 2)%nat then Frame false else WindowClosed.

Definition failing_frame (i : nat) : tick := Frame (i =? 1)%nat.

Definition endless_frames (_ : nat) : tick := Frame false.

(** A scheduler that keeps the worker waiting during the first three polls. *)
Definition late_start (k : nat) : nat := if (k <? 3)%nat then 0%nat else 1%nat.

(** The session for the text "hi" in a 200 x 100 window after the worker made
    [n] steps on its own. *)
Definition session_after (getenv_CI : option string) (frames : nat -> tick)
    (n : nat) : TextWindow :=
  run_worker fixed_width tt 200 100 origin getenv_CI frames n (created "hi").

(** A session that was closed while it was rendering a window that is never
    closed by the user: the join had time for four steps of the worker. *)
Definition closed_session : TextWindow :=
  fst (close fixed_width tt 200 100 origin None endless_frames 4
         (session_after None endless_frames 3)).

(** The same window with the stop flag set by another thread after the first
    frame, and one more step of the worker. *)
Definition stopped_session : TextWindow :=
  _run fixed_width tt 200 100 origin None endless_frames
    (stop_event_set (session_after None endless_frames 3)).

(** ** Further notions *)

(** A list of lines without the empty lines it starts with. *)
Fixpoint drop_blank_head (l : list string) : list string :=
  match l with
  | EmptyString :: l' => drop_blank_head l'
  | _ => l
  end.

(** ** TextWindowRenderer.render *)

(** [rl.WHITE] *)
Inductive Color : Type := WHITE.

(** Modelled from the spec: the button widget lives in
    [system/ui/lib/button.py]; the spec gives its contract as
    [drawButton(rect, label, style) -> activated] with style options that
    "include at least {normal, transparent}". *)
Inductive ButtonStyle : Type := NORMAL | TRANSPARENT.

Definition BUTTON_SIZE : Vector2 := {| x := 290; y := 160 |}.

(** [int(q)] on a number: truncation towards zero. *)
Definition py_int (q : Q) : Z := Z.quot (Qnum q) (Zpos (Qden q)).

(** [a < b] on numbers. *)
Definition Qlt_bool (a b : Q) : bool := negb (Qle_bool b a).

(** What one call of [render] asks of its collaborators, in order. *)
Inductive render_call (Font : Type) : Type :=
| HandleScroll (bounds content : Rectangle.t)   (* self._scroll_panel.handle_scroll *)
| BeginScissorMode (x y width height : Z)       (* rl.begin_scissor_mode *)
| DrawTextEx (font : Font) (text : string) (position : Vector2)
    (font_size spacing : Q) (tint : Color)      (* rl.draw_text_ex *)
| EndScissorMode                                (* rl.end_scissor_mode *)
| GuiButton (bounds : Rectangle.t) (label : string) (style : ButtonStyle)
| RequestClose                                  (* gui_app.request_close() *)
| Reboot.                                       (* HARDWARE.reboot() *)

Arguments HandleScroll {Font} _ _.
Arguments BeginScissorMode {Font} _ _ _ _.
Arguments DrawTextEx {Font} _ _ _ _ _ _.
Arguments EndScissorMode {Font}.
Arguments GuiButton {Font} _ _ _.
Arguments RequestClose {Font}.
Arguments Reboot {Font}.

Section Rendering.

Variable Font : Type.
(** [gui_app.font(100)] *)
Variable gui_app_font_100 : Font.
(** [gui_app.width], [gui_app.height] *)
Variable gui_app_width gui_app_height : Z.
(** [PC], from [openpilot.system.hardware] *)
Variable PC : bool.

(** [position] of line [i] in the loop of [render]. *)
Definition line_position (self : TextWindowRenderer) (scroll : Vector2) (i : nat)
    : Vector2 :=
  {| x := Rectangle.x (_textarea_rect self) + x scroll;
     y := Rectangle.y (_textarea_rect self) + y scroll
          + inject_Z (Z.of_nat i) * LINE_HEIGHT |}.

(** The test in front of [continue]. *)
Definition line_skipped (self : TextWindowRenderer) (position : Vector2) : bool :=
  Qlt_bool (y position + LINE_HEIGHT) (Rectangle.y (_textarea_rect self))
  || Qlt_bool (Rectangle.y (_textarea_rect self)
               + Rectangle.height (_textarea_rect self)) (y position).

(** [for i, line in enumerate(self._wrapped_lines)], from index [i] on. *)
Fixpoint draw_lines (self : TextWindowRenderer) (scroll : Vector2) (i : nat)
    (lines : list string) : list (render_call Font) :=
  match lines with
  | [] => []
  | line :: lines' =>
      let position := line_position self scroll i in
      if line_skipped self position then draw_lines self scroll (S i) lines'
      else DrawTextEx gui_app_font_100 line position FONT_SIZE 0 WHITE
             :: draw_lines self scroll (S i) lines'
  end.

(** [TextWindowRenderer.render]; [scroll] is what [handle_scroll] returns and
    [activated] what [gui_button] returns on this frame. *)
Definition render (self : TextWindowRenderer) (scroll : Vector2) (activated : bool)
    : list (render_call Font) * bool :=
  let textarea_rect := _textarea_rect self in
  let clipped :=
    ([HandleScroll textarea_rect (_content_rect self);
      BeginScissorMode (py_int (Rectangle.x textarea_rect))
        (py_int (Rectangle.y textarea_rect))
        (py_int (Rectangle.width textarea_rect))
        (py_int (Rectangle.height textarea_rect))]
     ++ draw_lines self scroll 0 (_wrapped_lines self)
     ++ [EndScissorMode])%list in
  let button_bounds :=
    {| Rectangle.x := inject_Z gui_app_width - MARGIN - x BUTTON_SIZE - SPACING;
       Rectangle.y := inject_Z gui_app_height - MARGIN - y BUTTON_SIZE;
       Rectangle.width := x BUTTON_SIZE;
       Rectangle.height := y BUTTON_SIZE |} in
  let ret := activated in
  ((clipped
    ++ [GuiButton button_bounds (if PC then "Exit" else "Reboot") TRANSPARENT]
    ++ (if ret then (if PC then [RequestClose] else [Reboot]) else []))%list,
   ret).

End Rendering.

Arguments line_position _ _ _ : clear implicits.
Arguments line_skipped _ _ : clear implicits.
Arguments draw_lines {Font} _ _ _ _ _.
Arguments render {Font} _ _ _ _ _ _ _.

(** The texts of the draw calls, in order. *)
Fixpoint drawn_texts {Font : Type} (calls : list (render_call Font)) : list string :=
  match calls with
  | [] => []
  | DrawTextEx _ text _ _ _ _ :: calls' => text :: drawn_texts calls'
  | _ :: calls' => drawn_texts calls'
  end.

Definition is_reboot {Font : Type} (c : render_call Font) : bool :=
  match c with Reboot => true | _ => false end.

Definition is_request_close {Font : Type} (c : render_call Font) : bool :=
  match c with RequestClose => true | _ => false end.

(** ** TextWindow.wait_for_exit and the scheduler *)

Section Waiting.

Variable Font : Type.
Variable measure_text_ex : Font -> string -> Q -> Q -> Vector2.
Variable gui_app_font : Font.
Variable gui_app_width gui_app_height : Z.
Variable scroll_origin : Vector2.
Variable getenv_CI : option string.
Variable frames : nat -> tick.

(** [while self._thread.is_alive(): time.sleep(0.01)], with the worker making
    [pace k] steps before the [k]-th evaluation of the condition and at most
    [fuel] evaluations. *)
Fixpoint wait_for_exit (fuel : nat) (pace : nat -> nat) (k : nat)
    (self : TextWindow) : option TextWindow :=
  match fuel with
  | O => None
  | S fuel' =>
      let self :=
        run_worker measure_text_ex gui_app_font gui_app_width gui_app_height
          scroll_origin getenv_CI frames (pace k) self in
      if is_alive self
      then wait_for_exit fuel' pace (S k) self
      else Some self
  end.

End Waiting.

Arguments wait_for_exit {Font} _ _ _ _ _ _ _ _ _ _ _.

(** ** Runs in which other threads set the stop flag *)

Section Interleaving.

Variable Font : Type.
Variable measure_text_ex : Font -> string -> Q -> Q -> Vector2.
Variable gui_app_font : Font.
Variable gui_app_width gui_app_height : Z.
Variable scroll_origin : Vector2.
Variable getenv_CI : option string.
Variable frames : nat -> tick.

(** [n] steps of the worker, numbered from [k]; before step number [j]
    another thread calls [self._stop_event.set()] when [stops j] says so. *)
Fixpoint run_with_stops (stops : nat -> bool) (k n : nat) (self : TextWindow)
    : TextWindow :=
  match n with
  | O => self
  | S n' =>
      let self := if stops k then stop_event_set self else self in
      run_with_stops stops (S k) n'
        (_run measure_text_ex gui_app_font gui_app_width gui_app_height
           scroll_origin getenv_CI frames self)
  end.

End Interleaving.

Arguments run_with_stops {Font} _ _ _ _ _ _ _ _ _ _ _.

(** Nobody asks to stop; somebody asks once, before the worker's step number
    [j]. *)
Definition never_stop (_ : nat) : bool := false.

Definition stop_before (j k : nat) : bool := (k =? j)%nat.

(** The number of steps the worker makes up to the evaluation number [k + d]
    of a polling loop, counted from evaluation [k]. *)
Fixpoint scheduled_from (pace : nat -> nat) (k d : nat) : nat :=
  match d with
  | O => pace k
  | S d' => pace k + scheduled_from pace (S k) d'
  end.

(** How many frames were rendered. *)
Definition is_render (c : gui_call) : bool :=
  match c with RenderFrame => true | _ => false end.

Definition renders (calls : list gui_call) : nat :=
  List.length (filter is_render calls).

(** A scheduler under which the worker makes one step between two polls. *)
Definition one_step_each (_ : nat) : nat := 1%nat.

(** A window whose user closes it after five frames. *)
Definition five_frames (i : nat) : tick :=
  if (i <? 5)%nat then Frame false else WindowClosed.

(** A renderer for three one-letter lines (content height 216) in a window
    of width 200 and the given height. *)
Definition three_lines (height : Z) : TextWindowRenderer :=
  TextWindowRenderer__init__ fixed_width tt 200 height origin
    ("a" ++ nl ++ "b" ++ nl ++ "c").

(** * Properties *)

(** ** Strings *)

Lemma append_nil_r (s : string) : s ++ "" = s.
Proof. induction s as [|c s IH]; simpl; [reflexivity | now rewrite IH]. Qed.

Lemma append_assoc (a b c : string) : (a ++ b) ++ c = a ++ b ++ c.
Proof. induction a as [|ch a IH]; simpl; [reflexivity | now rewrite IH]. Qed.

Lemma truthy_false (s : string) : truthy s = false -> s = "".
Proof. destruct s; [reflexivity | discriminate]. Qed.

Lemma all_space_app (a b : string) :
  all_space (a ++ b) = all_space a && all_space b.
Proof.
  induction a as [|c a IH]; simpl; [reflexivity|].
  now rewrite IH, andb_assoc.
Qed.

Lemma all_space_starts_word (s : string) :
  all_space s = true -> starts_word s = false.
Proof.
  destruct s as [|c s]; simpl; [reflexivity|].
  intros H. apply andb_true_iff in H as [H _]. now rewrite H.
Qed.

Lemma rstrip_split (s : string) :
  exists ws, s = rstrip s ++ ws /\ all_space ws = true.
Proof.
  induction s as [|c s [ws [Hs Hws]]]; simpl.
  - exists "". split; reflexivity.
  - destruct (rstrip s) as [|d r] eqn:E.
    + destruct (isspace c) eqn:Hc.
      * exists (String c ws). simpl in *. split; [now rewrite Hs at 1|].
        now rewrite Hc.
      * exists ws. simpl in *. split; [now rewrite Hs at 1 | assumption].
    + exists ws. split; [|assumption]. simpl. now rewrite Hs at 1.
Qed.

Lemma rstrip_all_space (s : string) : all_space s = true -> rstrip s = "".
Proof.
  induction s as [|c s IH]; simpl; [reflexivity|].
  intros H. apply andb_true_iff in H as [Hc Hs].
  now rewrite (IH Hs), Hc.
Qed.

Lemma lstrip_empty (s : string) : lstrip s = "" -> all_space s = true.
Proof.
  induction s as [|c s IH]; simpl; [reflexivity|].
  destruct (isspace c); [assumption | discriminate].
Qed.

Lemma blank_all_space (p : string) :
  truthy (strip p) = false -> all_space p = true.
Proof.
  intros H. apply truthy_false in H. unfold strip in H.
  apply lstrip_empty in H.
  destruct (rstrip_split p) as [ws [Hp Hws]].
  rewrite Hp, all_space_app, H, Hws. reflexivity.
Qed.

Lemma all_space_blank (p : string) :
  all_space p = true -> truthy (strip p) = false.
Proof. intros H. unfold strip. now rewrite (rstrip_all_space _ H). Qed.

Lemma indent_all_space (p : string) : all_space (re_match_spaces p) = true.
Proof.
  induction p as [|c p IH]; simpl; [reflexivity|].
  destruct (isspace c) eqn:Hc; simpl; [now rewrite Hc | reflexivity].
Qed.

Lemma indent_split (p : string) :
  p = re_match_spaces p ++ slice_from (String.length (re_match_spaces p)) p.
Proof.
  induction p as [|c p IH]; simpl; [reflexivity|].
  destruct (isspace c); simpl; [now rewrite <- IH | reflexivity].
Qed.

Lemma after_indent (p : string) :
  let rest := slice_from (String.length (re_match_spaces p)) p in
  rest = "" \/ starts_word rest = true.
Proof.
  induction p as [|c p IH]; simpl; [now left|].
  destruct (isspace c) eqn:Hc; simpl; [exact IH | right; now rewrite Hc].
Qed.

Lemma nonblank_rest (p : string) :
  truthy (strip p) = true ->
  starts_word (slice_from (String.length (re_match_spaces p)) p) = true.
Proof.
  intros H. destruct (after_indent p) as [E|E]; [|exact E].
  exfalso. assert (A : all_space p = true).
  { rewrite (indent_split p), E, append_nil_r. apply indent_all_space. }
  apply all_space_blank in A. congruence.
Qed.

(** ** Words of a text *)

Lemma tokens_starts_word (s : string) :
  starts_word s = true -> tokens s <> [].
Proof.
  destruct s as [|c s]; simpl; [discriminate|].
  intros H. apply negb_true_iff in H. rewrite H.
  destruct (starts_word s); [destruct (tokens s)|]; discriminate.
Qed.

Lemma starts_word_app (a b : string) :
  starts_word b = false ->
  starts_word (a ++ b) = starts_word a.
Proof. destruct a; simpl; [intros ->|]; reflexivity. Qed.

(** Words do not merge across a boundary that is followed by whitespace or by
    the end of the text. *)
Lemma tokens_app (a b : string) :
  starts_word b = false -> tokens (a ++ b) = (tokens a ++ tokens b)%list.
Proof.
  intros Hb. induction a as [|c a IH]; simpl; [reflexivity|].
  destruct (isspace c); [exact IH|].
  rewrite (starts_word_app a b Hb), IH.
  destruct (starts_word a) eqn:Ha; [|reflexivity].
  pose proof (tokens_starts_word a Ha) as Hne.
  destruct (tokens a); [contradiction | reflexivity].
Qed.

Lemma tokens_skip_spaces (ws t : string) :
  all_space ws = true -> tokens (ws ++ t) = tokens t.
Proof.
  induction ws as [|c ws IH]; simpl; [reflexivity|].
  intros H. apply andb_true_iff in H as [Hc Hws]. rewrite Hc. auto.
Qed.

Lemma tokens_all_space (ws : string) : all_space ws = true -> tokens ws = [].
Proof.
  intros H. rewrite <- (append_nil_r ws). now rewrite tokens_skip_spaces.
Qed.

Lemma tokens_drop_tail (a ws : string) :
  all_space ws = true -> tokens (a ++ ws) = tokens a.
Proof.
  intros H. rewrite tokens_app by now apply all_space_starts_word.
  rewrite (tokens_all_space _ H). apply app_nil_r.
Qed.

Lemma tokens_word (w : string) :
  no_space w = true -> truthy w = true -> tokens w = [w].
Proof.
  induction w as [|c w IH]; simpl; [discriminate|].
  intros H _. apply andb_true_iff in H as [Hc Hw].
  apply negb_true_iff in Hc. rewrite Hc.
  destruct w as [|d w]; [reflexivity|].
  assert (Hd : starts_word (String d w) = true).
  { simpl in *. now apply andb_true_iff in Hw as [-> _]. }
  rewrite Hd, (IH Hw eq_refl). reflexivity.
Qed.

Lemma tokens_rstrip (s : string) : tokens (rstrip s) = tokens s.
Proof.
  destruct (rstrip_split s) as [ws [Hs Hws]].
  rewrite Hs at 2. now rewrite tokens_drop_tail.
Qed.

Lemma words_of_app (l l' : list string) :
  words_of (l ++ l')%list = (words_of l ++ words_of l')%list.
Proof. apply flat_map_app. Qed.

Lemma words_of_push (l : list string) (s : string) :
  words_of (push l s) = (words_of l ++ tokens s)%list.
Proof. unfold push. rewrite words_of_app. simpl. now rewrite app_nil_r. Qed.

(** ** The regular-expression split *)

Lemma re_split_spaces_glue (s : string) : glue (re_split_spaces s) = s.
Proof.
  induction s as [|c s IH]; simpl; [reflexivity|].
  destruct (re_split_spaces s) as [|w rest]; [simpl in IH; now subst|].
  destruct (isspace c).
  - destruct w as [|d w]; [destruct rest as [|sep rest']|];
      simpl in *; now rewrite IH.
  - simpl in *. now rewrite IH.
Qed.

Lemma re_split_spaces_head (s : string) :
  match re_split_spaces s with
  | [] => False
  | w :: _ => truthy w = starts_word s
  end.
Proof.
  induction s as [|c s IH]; simpl; [reflexivity|].
  destruct (re_split_spaces s) as [|w rest]; [contradiction|].
  destruct (isspace c); [|reflexivity].
  destruct w; [destruct rest|]; reflexivity.
Qed.

Lemma re_split_spaces_pieces (s : string) : pieces (re_split_spaces s).
Proof.
  induction s as [|c s IH]; simpl; [now constructor|].
  pose proof (re_split_spaces_head s) as Hh.
  destruct (re_split_spaces s) as [|w rest]; [contradiction|].
  destruct (isspace c) eqn:Hc.
  - destruct w as [|d w].
    + destruct rest as [|sep rest'].
      * constructor; try reflexivity; [simpl; now rewrite Hc | assumption | constructor].
      * inversion IH; subst. constructor; try reflexivity; try assumption.
        simpl. now rewrite Hc.
    + constructor; try reflexivity; try assumption.
      * simpl. now rewrite Hc.
      * now constructor.
  - inversion IH; subst.
    + constructor. simpl. now rewrite Hc.
    + constructor; try assumption. simpl. now rewrite Hc.
Qed.

Lemma re_split_spaces_inner (s : string) :
  starts_word s = true -> inner (re_split_spaces s).
Proof.
  intros H. pose proof (re_split_spaces_head s) as Hh.
  destruct (re_split_spaces s) as [|w rest]; [contradiction|].
  constructor. congruence.
Qed.

(** The words of a split are the words of the string it came from. *)
Lemma words_of_pieces (l : list string) :
  pieces l -> words_of l = tokens (glue l).
Proof.
  induction 1 as [w Hw | w sep rest Hw Hsep Hne Hrest IH Hin]; simpl.
  - now rewrite append_nil_r, app_nil_r.
  - rewrite (tokens_all_space _ Hsep). simpl.
    rewrite tokens_app.
    + rewrite tokens_skip_spaces by assumption. now rewrite IH.
    + destruct sep as [|d sep]; [discriminate|]. simpl in *.
      now apply andb_true_iff in Hsep as [-> _].
Qed.

(** ** Paragraphs *)

Lemma split_newline_nonempty (s : string) : split_newline s <> [].
Proof.
  destruct s as [|c s]; simpl; [discriminate|].
  destruct (Ascii.eqb c newline); [discriminate|].
  destruct (split_newline s); discriminate.
Qed.

Lemma split_newline_join (s : string) : join_newline (split_newline s) = s.
Proof.
  induction s as [|c s IH]; simpl; [reflexivity|].
  pose proof (split_newline_nonempty s) as Hne.
  destruct (split_newline s) as [|p ps]; [contradiction|].
  destruct (Ascii.eqb_spec c newline) as [->|Hc].
  - change (join_newline ("" :: p :: ps))
      with (String newline (join_newline (p :: ps))).
    now rewrite IH.
  - destruct ps; simpl in *; now rewrite IH.
Qed.

Lemma split_newline_single (p : string) :
  no_newline p = true -> split_newline p = [p].
Proof.
  induction p as [|c p IH]; simpl; [reflexivity|].
  intros H. apply andb_true_iff in H as [Hc Hp].
  apply negb_true_iff in Hc. rewrite Hc, (IH Hp). reflexivity.
Qed.

Lemma tokens_join_newline (ps : list string) :
  tokens (join_newline ps) = words_of ps.
Proof.
  induction ps as [|p ps IH]; [reflexivity|].
  destruct ps as [|q ps].
  - simpl. now rewrite app_nil_r.
  - change (join_newline (p :: q :: ps))
      with (p ++ String newline (join_newline (q :: ps))).
    rewrite tokens_app by reflexivity.
    change (tokens (String newline (join_newline (q :: ps))))
      with (tokens (join_newline (q :: ps))).
    now rewrite IH.
Qed.

(** ** wrap_text: blank lines and words *)

Section WrapWords.

Context {Font : Type}.
Variable measure_text_ex : Font -> string -> Q -> Q -> Vector2.
Variable font : Font.
Variables font_size max_width : Q.

Local Abbreviation place := (place_word measure_text_ex font font_size max_width).
Local Abbreviation loop := (wrap_words measure_text_ex font font_size max_width).
Local Abbreviation para := (wrap_paragraph measure_text_ex font font_size max_width).

Lemma closed_spaces (ws : string) : all_space ws = true -> closed ws.
Proof.
  intros H t. now rewrite (tokens_skip_spaces ws t H), (tokens_all_space ws H).
Qed.

Lemma closed_sep (a sep : string) :
  all_space sep = true -> truthy sep = true -> closed (a ++ sep).
Proof.
  intros Hs Hne t. rewrite append_assoc, tokens_app.
  - now rewrite (tokens_skip_spaces sep t Hs), (tokens_drop_tail a sep Hs).
  - destruct sep as [|d sep]; [discriminate|]. simpl in *.
    now apply andb_true_iff in Hs as [-> _].
Qed.

Lemma place_word_words lines cur w sep :
  closed cur -> all_space sep = true ->
  (words_of (fst (place (lines, cur) w sep))
     ++ tokens (snd (place (lines, cur) w sep)))%list
  = (words_of lines ++ tokens cur ++ tokens w)%list.
Proof.
  intros Hc Hs. unfold place_word.
  destruct (Qle_bool _ _); simpl.
  - now rewrite Hc, tokens_drop_tail.
  - rewrite words_of_push, tokens_drop_tail by reflexivity.
    now rewrite <- app_assoc.
Qed.

Lemma place_word_closed lines cur w sep :
  all_space sep = true -> truthy sep = true ->
  closed (snd (place (lines, cur) w sep)).
Proof.
  intros Hs Hne. unfold place_word.
  destruct (Qle_bool _ _); simpl.
  - rewrite <- append_assoc. now apply closed_sep.
  - now apply closed_sep.
Qed.

Lemma wrap_words_words words :
  pieces words ->
  forall lines cur, closed cur ->
    (words_of (fst (loop words (lines, cur)))
       ++ tokens (snd (loop words (lines, cur))))%list
    = (words_of lines ++ tokens cur ++ words_of words)%list.
Proof.
  induction 1 as [w Hw | w sep rest Hw Hsep Hne Hrest IH Hin];
    intros lines cur Hc.
  - change (loop [w] (lines, cur)) with (place (lines, cur) w "").
    rewrite place_word_words by (assumption || reflexivity).
    simpl. now rewrite app_nil_r.
  - change (loop (w :: sep :: rest) (lines, cur))
      with (loop rest (place (lines, cur) w sep)).
    pose proof (place_word_words lines cur w sep Hc Hsep) as Hstep.
    pose proof (place_word_closed lines cur w sep Hsep Hne) as Hcl.
    destruct (place (lines, cur) w sep) as [lines1 cur1]. simpl in *.
    rewrite (IH lines1 cur1 Hcl), app_assoc, Hstep.
    rewrite (tokens_all_space _ Hsep). simpl.
    now rewrite <- !app_assoc.
Qed.

Lemma wrap_paragraph_words lines p :
  words_of (para lines p) = (words_of lines ++ tokens p)%list.
Proof.
  unfold wrap_paragraph.
  destruct (truthy (strip p)) eqn:Hp; simpl.
  - pose proof (wrap_words_words _
      (re_split_spaces_pieces
         (slice_from (String.length (re_match_spaces p)) p))
      lines _ (closed_spaces _ (indent_all_space p))) as Hloop.
    destruct (loop _ _) as [lines1 cur1]. simpl in Hloop.
    rewrite (words_of_pieces _ (re_split_spaces_pieces _)),
      re_split_spaces_glue in Hloop.
    rewrite (tokens_all_space _ (indent_all_space p)) in Hloop.
    simpl in Hloop.
    assert (Hrest : tokens p
      = tokens (slice_from (String.length (re_match_spaces p)) p)).
    { rewrite (indent_split p) at 1.
      apply tokens_skip_spaces, indent_all_space. }
    rewrite Hrest, <- Hloop, <- (tokens_rstrip cur1).
    destruct (rstrip cur1) eqn:E; simpl.
    + now rewrite app_nil_r.
    + now rewrite words_of_push.
  - rewrite (tokens_all_space p) by now apply blank_all_space.
    rewrite app_nil_r.
    destruct (nonempty lines); [|reflexivity].
    rewrite words_of_push. apply app_nil_r.
Qed.

Lemma fold_paragraphs_words ps : forall lines,
  words_of (fold_left para ps lines) = (words_of lines ++ words_of ps)%list.
Proof.
  induction ps as [|p ps IH]; intros lines; simpl.
  - now rewrite app_nil_r.
  - now rewrite IH, wrap_paragraph_words, <- app_assoc.
Qed.

Lemma words_of_skip_blank (l : list string) :
  words_of (filter truthy l) = words_of l.
Proof.
  induction l as [|s l IH]; [reflexivity|].
  simpl. destruct s; simpl; [exact IH | now rewrite IH].
Qed.

Lemma wrap_text_words (text : string) :
  words_of (wrap_text measure_text_ex font text font_size max_width) = tokens text.
Proof.
  unfold wrap_text. rewrite fold_paragraphs_words. simpl.
  now rewrite <- tokens_join_newline, split_newline_join.
Qed.

(** C5, amended: the words of the display lines, blank-line markers left
    out and the lines read one per line, are the words of the input text, in
    the same order: wrapping drops, duplicates and reorders no word.  Reading
    the lines one per line means collecting their words line after line,
    which is the same as putting the lines back together with line breaks
    between them; wrapping that text again still gives the words of the
    input.  (Gluing the lines together without a separator does not have this
    property: the last word of a line and the first word of the next can
    merge.) *)
Theorem wrap_text_keeps_words (text : string) :
  let lines := filter truthy (wrap_text measure_text_ex font text font_size max_width) in
  words_of lines = tokens text
  /\ tokens (join_newline lines) = tokens text
  /\ words_of (wrap_text measure_text_ex font (join_newline lines) font_size max_width)
     = tokens text.
Proof.
  intros lines.
  assert (H : words_of lines = tokens text).
  { unfold lines. now rewrite words_of_skip_blank, wrap_text_words. }
  assert (J : tokens (join_newline lines) = tokens text)
    by now rewrite tokens_join_newline.
  split; [exact H | split; [exact J | now rewrite wrap_text_words]].
Qed.

(** C3: wrapping the empty string gives no display line at all. *)
Theorem wrap_text_empty :
  wrap_text measure_text_ex font "" font_size max_width = [].
Proof. reflexivity. Qed.

End WrapWords.

(** ** wrap_text: widths *)

Lemma length_append (s t : string) :
  String.length (s ++ t) = (String.length s + String.length t)%nat.
Proof. induction s as [|c s IH]; simpl; [reflexivity | now rewrite IH]. Qed.

Lemma fixed_width_monotone : monotone fixed_width.
Proof.
  intros font s t size spacing. unfold fixed_width. cbn [x].
  rewrite <- Zle_Qle, length_append. lia.
Qed.

Section WrapWidths.

Context {Font : Type}.
Variable measure_text_ex : Font -> string -> Q -> Q -> Vector2.
Variable font : Font.
Variables font_size max_width : Q.

Local Abbreviation place := (place_word measure_text_ex font font_size max_width).
Local Abbreviation loop := (wrap_words measure_text_ex font font_size max_width).
Local Abbreviation para := (wrap_paragraph measure_text_ex font font_size max_width).
Local Abbreviation wrap := (fun text => wrap_text measure_text_ex font text font_size max_width).
Local Abbreviation ok := (fits measure_text_ex font font_size max_width).

Lemma fits_test (s : string) :
  Qle_bool (x (measure_text_ex font s font_size 0)) max_width = true <-> ok s.
Proof. apply Qle_bool_iff. Qed.

Lemma wider_test (s : string) :
  (max_width < x (measure_text_ex font s font_size 0))%Q ->
  Qle_bool (x (measure_text_ex font s font_size 0)) max_width = false.
Proof.
  intros H. apply not_true_is_false. intros E.
  apply Qle_bool_iff in E. exact (Qlt_not_le _ _ H E).
Qed.

(** *** A paragraph that fits stays on one line *)

Section Monotone.

Hypothesis measure_monotone : monotone measure_text_ex.

Lemma fits_prefix (a b : string) : ok (a ++ b) -> ok a.
Proof.
  unfold fits. intros H.
  eapply Qle_trans; [apply measure_monotone | exact H].
Qed.

Lemma fits_rstrip (s : string) : ok s -> ok (rstrip s).
Proof.
  intros H. destruct (rstrip_split s) as [ws [Hs _]].
  rewrite Hs in H. exact (fits_prefix _ _ H).
Qed.

Lemma wrap_words_fitting words :
  pieces words ->
  forall lines cur, ok (cur ++ glue words) ->
    loop words (lines, cur) = (lines, cur ++ glue words).
Proof.
  induction 1 as [w Hw | w sep rest Hw Hsep Hne Hrest IH Hin];
    intros lines cur Hfit.
  - simpl in *. unfold place_word.
    now rewrite (proj2 (fits_test _) Hfit).
  - change (loop (w :: sep :: rest) (lines, cur))
      with (loop rest (place (lines, cur) w sep)).
    assert (E : cur ++ glue (w :: sep :: rest)
                = (cur ++ w ++ sep) ++ glue rest).
    { simpl. now rewrite !append_assoc. }
    rewrite E in *. unfold place_word.
    rewrite (proj2 (fits_test _) (fits_prefix _ _ Hfit)).
    now apply IH.
Qed.

Lemma rstrip_nonblank (p : string) :
  truthy (strip p) = true -> truthy (rstrip p) = true.
Proof.
  unfold strip. destruct (rstrip p); [discriminate | reflexivity].
Qed.

(** C4, amended: a paragraph without newline that has at least one
    non-whitespace character and whose full text measures at most
    [max_width] is returned as exactly one display line: the paragraph
    with its indent kept and its trailing whitespace stripped. *)
Theorem wrap_text_fitting_paragraph (p : string) :
  no_newline p = true ->
  truthy (strip p) = true ->
  ok p ->
  wrap p = [rstrip p].
Proof.
  intros Hnl Hp Hfit. unfold wrap_text.
  rewrite (split_newline_single p Hnl). simpl.
  unfold wrap_paragraph. rewrite Hp. simpl.
  rewrite wrap_words_fitting.
  - rewrite re_split_spaces_glue, <- indent_split.
    now rewrite (rstrip_nonblank p Hp).
  - apply re_split_spaces_pieces.
  - now rewrite re_split_spaces_glue, <- indent_split.
Qed.

(** *** No overflowing line, when each word leaves room for a space *)

Lemma place_word_fits lines cur w sep :
  Forall ok lines -> ok cur -> ok (w ++ " ") ->
  Forall ok (fst (place (lines, cur) w sep))
  /\ ok (snd (place (lines, cur) w sep)).
Proof.
  intros Hl Hc Hw. unfold place_word.
  destruct (Qle_bool _ _) eqn:E; simpl.
  - split; [assumption | now apply fits_test].
  - split; [|assumption]. unfold push.
    apply Forall_app. split; [assumption | now constructor].
Qed.

Lemma wrap_words_fits words :
  pieces words -> inner words ->
  Forall (fun w => ok (w ++ " ")) (words_of words) ->
  forall lines cur, Forall ok lines -> ok cur ->
    Forall ok (fst (loop words (lines, cur)))
    /\ ok (rstrip (snd (loop words (lines, cur)))).
Proof.
  induction 1 as [w Hw | w sep rest Hw Hsep Hne Hrest IH Hin];
    intros Hinner Hwords lines cur Hl Hc.
  - change (loop [w] (lines, cur)) with (place (lines, cur) w "").
    unfold place_word. destruct (Qle_bool _ _) eqn:E; simpl.
    + split; [assumption|]. now apply fits_rstrip, fits_test.
    + split.
      * unfold push. apply Forall_app.
        split; [assumption | now constructor].
      * destruct w as [|c w].
        -- simpl. exact (fits_prefix "" cur Hc).
        -- apply fits_rstrip.
           unfold words_of in Hwords. cbn [flat_map] in Hwords.
           rewrite (tokens_word _ Hw eq_refl) in Hwords.
           now inversion Hwords.
  - change (loop (w :: sep :: rest) (lines, cur))
      with (loop rest (place (lines, cur) w sep)).
    assert (Hne_w : truthy w = true) by now inversion Hinner.
    unfold words_of in Hwords. cbn [flat_map] in Hwords.
    rewrite (tokens_word _ Hw Hne_w), (tokens_all_space _ Hsep) in Hwords.
    cbn [app] in Hwords. inversion Hwords as [|? ? Hw_fit Hrest_fit]; subst.
    destruct (place_word_fits lines cur w sep Hl Hc Hw_fit) as [Hl1 Hc1].
    destruct (place (lines, cur) w sep) as [lines1 cur1].
    now apply IH.
Qed.

Lemma wrap_paragraph_fits lines p :
  Forall ok lines ->
  Forall (fun w => ok (w ++ " ")) (tokens p) ->
  (truthy (strip p) = true -> ok (re_match_spaces p)) ->
  Forall ok (para lines p).
Proof.
  intros Hl Hwords Hindent. unfold wrap_paragraph.
  destruct (truthy (strip p)) eqn:Hp; simpl.
  - pose proof (nonblank_rest p Hp) as Hrest.
    destruct (wrap_words_fits
                (re_split_spaces (slice_from (String.length (re_match_spaces p)) p))
                (re_split_spaces_pieces _)
                (re_split_spaces_inner _ Hrest)) with (lines := lines)
                (cur := re_match_spaces p) as [Hl1 Hc1];
      try assumption; try now apply Hindent.
    + rewrite (words_of_pieces _ (re_split_spaces_pieces _)),
        re_split_spaces_glue.
      rewrite (indent_split p) in Hwords at 1.
      now rewrite tokens_skip_spaces in Hwords by apply indent_all_space.
    + destruct (loop _ _) as [lines1 cur1]. simpl in *.
      destruct (rstrip cur1) eqn:E; simpl; [assumption|].
      unfold push. apply Forall_app. split; [assumption | now constructor].
  - destruct lines as [|l lines]; simpl; [constructor|].
    unfold push. apply Forall_app. split; [assumption|].
    constructor; [|constructor].
    inversion Hl; subst. now apply (fits_prefix "" l).
Qed.

Lemma fold_paragraphs_fits ps : forall lines,
  Forall ok lines ->
  Forall (fun p => Forall (fun w => ok (w ++ " ")) (tokens p)) ps ->
  Forall (fun p => truthy (strip p) = true -> ok (re_match_spaces p)) ps ->
  Forall ok (fold_left para ps lines).
Proof.
  induction ps as [|p ps IH]; intros lines Hl Hw Hi; simpl; [assumption|].
  inversion Hw; subst. inversion Hi; subst.
  apply IH; try assumption. now apply wrap_paragraph_fits.
Qed.

(** C1, amended: with a measurement that is monotone in string
    extension, every display line measures at most [max_width] provided
    every word of the text still fits when one space is appended to it
    and the leading indent of every non-blank paragraph fits. *)
Theorem wrap_text_lines_fit (text : string) :
  Forall (fun w => ok (w ++ " ")) (tokens text) ->
  Forall (fun p => truthy (strip p) = true -> ok (re_match_spaces p))
         (split_newline text) ->
  Forall ok (wrap text).
Proof.
  intros Hwords Hindent. unfold wrap_text.
  apply fold_paragraphs_fits; [constructor | | assumption].
  apply Forall_flat_map. fold (words_of (split_newline text)).
  now rewrite <- tokens_join_newline, split_newline_join.
Qed.

End Monotone.

(** *** Lines only accumulate *)

Lemma place_word_extends lines cur w sep :
  exists more, fst (place (lines, cur) w sep) = (lines ++ more)%list.
Proof.
  unfold place_word. destruct (Qle_bool _ _); simpl.
  - exists []. now rewrite app_nil_r.
  - now exists [cur].
Qed.

Lemma wrap_words_extends words : forall lines cur,
  exists more, fst (loop words (lines, cur)) = (lines ++ more)%list.
Proof.
  induction words as [words IH] using (induction_ltof1 _ (@List.length string)).
  unfold ltof in IH. intros lines cur.
  destruct words as [|w [|sep rest]].
  - exists []. simpl. now rewrite app_nil_r.
  - apply place_word_extends.
  - change (loop (w :: sep :: rest) (lines, cur))
      with (loop rest (place (lines, cur) w sep)).
    destruct (place_word_extends lines cur w sep) as [m1 H1].
    destruct (place (lines, cur) w sep) as [lines1 cur1]. simpl in H1.
    destruct (IH rest (Nat.lt_trans _ _ _ (Nat.lt_succ_diag_r _) (Nat.lt_succ_diag_r _))
                lines1 cur1) as [m2 H2].
    exists (m1 ++ m2)%list. now rewrite H2, H1, app_assoc.
Qed.

Lemma wrap_paragraph_extends lines p :
  exists more, para lines p = (lines ++ more)%list.
Proof.
  unfold wrap_paragraph. destruct (truthy (strip p)); simpl.
  - destruct (wrap_words_extends
                (re_split_spaces (slice_from (String.length (re_match_spaces p)) p))
                lines (re_match_spaces p)) as [m H].
    destruct (loop _ _) as [lines1 cur1]. simpl in H. subst lines1.
    destruct (truthy (rstrip cur1)).
    + exists (m ++ [rstrip cur1])%list. unfold push. now rewrite app_assoc.
    + now exists m.
  - destruct (nonempty lines).
    + now exists [""].
    + exists []. now rewrite app_nil_r.
Qed.

Lemma fold_paragraphs_extends ps : forall lines,
  exists more, fold_left para ps lines = (lines ++ more)%list.
Proof.
  induction ps as [|p ps IH]; intros lines; simpl.
  - exists []. now rewrite app_nil_r.
  - destruct (wrap_paragraph_extends lines p) as [m1 H1].
    destruct (IH (para lines p)) as [m2 H2].
    exists (m1 ++ m2)%list. now rewrite H2, H1, app_assoc.
Qed.

End WrapWidths.

(** ** wrap_text: the stated properties at concrete inputs *)

Example re_split_spaces_example :
  re_split_spaces "  a  b c " = [""; "  "; "a"; "  "; "b"; " "; "c"; " "; ""].
Proof. reflexivity. Qed.

Example split_newline_example :
  split_newline ("a" ++ nl ++ nl ++ "b" ++ nl) = ["a"; ""; "b"; ""].
Proof. reflexivity. Qed.

Example tokens_example :
  tokens ("  hello   world" ++ nl ++ " foo ") = ["hello"; "world"; "foo"].
Proof. reflexivity. Qed.

Example wrap_text_example :
  wrap_text fixed_width tt
    ("  hello   world  foo " ++ nl ++ nl ++ " x" ++ nl) 64 130
  = ["  hello   "; "world foo"; ""; " x"; ""].
Proof. reflexivity. Qed.

(** C2, amended: the text made of a newline followed by "a" is wrapped into
    the single line "a" whenever "a" fits: a blank paragraph that comes before
    the first display line leaves no blank-line marker.  In particular the
    empty string is not the only input with zero display lines: a lone newline
    gives none either. *)
Theorem wrap_text_newline_a
    {Font : Type} (measure_text_ex : Font -> string -> Q -> Q -> Vector2)
    (font : Font) (font_size max_width : Q) :
  fits measure_text_ex font font_size max_width "a" ->
  wrap_text measure_text_ex font (nl ++ "a") font_size max_width = ["a"]
  /\ wrap_text measure_text_ex font nl font_size max_width = [].
Proof.
  intros Hfit. split; [|reflexivity].
  unfold wrap_text. cbn [nl append split_newline Ascii.eqb Bool.eqb newline fold_left].
  change (wrap_paragraph measure_text_ex font font_size max_width [] "") with (@nil string).
  unfold wrap_paragraph. cbn.
  unfold place_word. cbn.
  now rewrite (proj2 (Qle_bool_iff _ _) Hfit).
Qed.

Lemma wrap_text_newline_a_witness :
  fits fixed_width tt 64 30 "a"
  /\ wrap_text fixed_width tt (nl ++ "a") 64 30 = ["a"]
  /\ wrap_text fixed_width tt nl 64 30 = [].
Proof.
  assert (H : fits fixed_width tt 64 30 "a") by (vm_compute; discriminate).
  split; [exact H | exact (wrap_text_newline_a fixed_width tt 64 30 H)].
Defined.

(** C5 as stated fails: the text "a", newline, "b" is wrapped into the lines
    "a" and "b"; their concatenation is "ab", which has the one word "ab",
    while the text has the two words "a" and "b". *)
Lemma wrap_text_keeps_words_counterexample :
  wrap_text fixed_width tt ("a" ++ nl ++ "b") 64 30 = ["a"; "b"]
  /\ glue (filter truthy (wrap_text fixed_width tt ("a" ++ nl ++ "b") 64 30)) = "ab"
  /\ tokens (glue (filter truthy (wrap_text fixed_width tt ("a" ++ nl ++ "b") 64 30)))
     <> tokens ("a" ++ nl ++ "b").
Proof.
  split; [reflexivity|]. split; [reflexivity|].
  vm_compute. discriminate.
Qed.

(** C2 as stated fails: with ten-pixel characters and room for three, "a"
    fits, yet the result for newline + "a" is not the two lines "" and "a". *)
Lemma wrap_text_newline_a_counterexample :
  fits fixed_width tt 64 30 "a"
  /\ wrap_text fixed_width tt (nl ++ "a") 64 30 <> [""; "a"].
Proof.
  split; [vm_compute; discriminate|].
  vm_compute. discriminate.
Qed.

Lemma wrap_text_fitting_paragraph_witness :
  monotone fixed_width
  /\ no_newline "  two words  " = true
  /\ truthy (strip "  two words  ") = true
  /\ fits fixed_width tt 64 130 "  two words  "
  /\ wrap_text fixed_width tt "  two words  " 64 130 = ["  two words"].
Proof.
  assert (Hfit : fits fixed_width tt 64 130 "  two words  ")
    by (vm_compute; discriminate).
  split; [exact fixed_width_monotone|].
  split; [reflexivity|]. split; [reflexivity|]. split; [exact Hfit|].
  exact (wrap_text_fitting_paragraph fixed_width tt 64 130
           fixed_width_monotone "  two words  " eq_refl eq_refl Hfit).
Defined.

(** C4 as stated fails on a blank paragraph: two spaces have no newline and
    fit, the measurement is monotone, and the result has no line at all
    instead of the one stripped line. *)
Lemma wrap_text_fitting_paragraph_counterexample :
  monotone fixed_width
  /\ no_newline "  " = true
  /\ fits fixed_width tt 64 130 "  "
  /\ wrap_text fixed_width tt "  " 64 130 = []
  /\ wrap_text fixed_width tt "  " 64 130 <> [rstrip "  "].
Proof.
  split; [exact fixed_width_monotone|].
  split; [reflexivity|]. split; [vm_compute; discriminate|].
  split; [reflexivity | vm_compute; discriminate].
Qed.

Lemma wrap_text_lines_fit_witness :
  monotone fixed_width
  /\ ~ fits fixed_width tt 64 50 "  aaaa bbbb"
  /\ wrap_text fixed_width tt "  aaaa bbbb" 64 50 = ["  "; "aaaa "; "bbbb"]
  /\ Forall (fits fixed_width tt 64 50) (wrap_text fixed_width tt "  aaaa bbbb" 64 50).
Proof.
  split; [exact fixed_width_monotone|].
  split; [intros H; vm_compute in H; now apply H|].
  split; [reflexivity|].
  apply (wrap_text_lines_fit fixed_width tt 64 50 fixed_width_monotone).
  - vm_compute. repeat constructor; discriminate.
  - vm_compute. repeat constructor; discriminate.
Defined.

(** C1 as stated fails: under the monotone ten-pixels-per-character
    measurement the paragraph "aaaa bb" is wider than forty pixels, each of
    its two words fits in forty pixels, and the display line "aaaa " that
    comes back measures fifty. *)
Lemma wrap_text_lines_fit_counterexample :
  monotone fixed_width
  /\ ~ fits fixed_width tt 64 40 "aaaa bb"
  /\ Forall (fits fixed_width tt 64 40) (tokens "aaaa bb")
  /\ wrap_text fixed_width tt "aaaa bb" 64 40 = [""; "aaaa "; "bb"]
  /\ ~ Forall (fits fixed_width tt 64 40) (wrap_text fixed_width tt "aaaa bb" 64 40).
Proof.
  split; [exact fixed_width_monotone|].
  split; [intros H; vm_compute in H; now apply H|].
  split; [vm_compute; repeat constructor; discriminate|].
  split; [reflexivity|].
  intros H. change (wrap_text fixed_width tt "aaaa bb" 64 40)
    with [""; "aaaa "; "bb"] in H.
  inversion H as [|? ? _ H1]; subst. inversion H1 as [|? ? H2 _]; subst.
  vm_compute in H2. now apply H2.
Qed.

(** C10: when a text starts with a word and that word together with the
    whitespace token after it measures wider than [max_width], the first
    display line is the empty initial current line, although no paragraph of
    the input before it is blank; "aaaa bbbb" at room for three characters is
    such an input. *)
Theorem wrap_text_pushes_empty_line
    {Font : Type} (measure_text_ex : Font -> string -> Q -> Q -> Vector2)
    (font : Font) (font_size max_width : Q) (text : string) :
  starts_word text = true ->
  (let words := re_split_spaces (hd "" (split_newline text)) in
   max_width < x (measure_text_ex font (hd "" words ++ nth 1 words "") font_size 0))%Q ->
  exists rest,
    wrap_text measure_text_ex font text font_size max_width = "" :: rest.
Proof.
  intros Hstart Hwide. unfold wrap_text.
  destruct text as [|c text]; [discriminate|].
  simpl in Hstart. apply negb_true_iff in Hstart.
  assert (Hc : Ascii.eqb c newline = false).
  { destruct (Ascii.eqb_spec c newline) as [->|]; [discriminate | reflexivity]. }
  cbn [split_newline] in *. rewrite Hc in *.
  pose proof (split_newline_nonempty text) as Hne.
  destruct (split_newline text) as [|p ps]; [contradiction|].
  cbn [hd fold_left] in *.
  assert (Hfirst : exists more,
            wrap_paragraph measure_text_ex font font_size max_width [] (String c p)
            = "" :: more).
  { unfold wrap_paragraph.
    assert (Hp : truthy (strip (String c p)) = true).
    { destruct (truthy (strip (String c p))) eqn:E; [reflexivity|].
      apply blank_all_space in E. simpl in E. now rewrite Hstart in E. }
    rewrite Hp. cbn [negb re_match_spaces]. rewrite Hstart.
    cbn [String.length slice_from].
    pose proof (re_split_spaces_pieces (String c p)) as Hshape.
    destruct Hshape as [w Hw | w sep rest Hw Hsep Hsne Hrest Hin];
      cbn [hd nth] in Hwide.
    - cbn [wrap_words]. unfold place_word. cbn [append].
      rewrite (wider_test _ _ _ _ _ Hwide). cbn.
      destruct (rstrip (w ++ " ")); cbn; eauto.
    - change (wrap_words measure_text_ex font font_size max_width
                (w :: sep :: rest) ([], ""))
        with (wrap_words measure_text_ex font font_size max_width rest
                (place_word measure_text_ex font font_size max_width ([], "") w sep)).
      unfold place_word. cbn [append].
      rewrite (wider_test _ _ _ _ _ Hwide). cbn [push app].
      destruct (wrap_words_extends measure_text_ex font font_size max_width
                  rest [""] (w ++ " ")) as [m Hm].
      destruct (wrap_words _ _ _ _ rest _) as [lines1 cur1].
      simpl in Hm. subst lines1.
      destruct (truthy (rstrip cur1)); cbn; eauto. }
  destruct Hfirst as [more Hmore]. rewrite Hmore.
  destruct (fold_paragraphs_extends measure_text_ex font font_size max_width
              ps ("" :: more)) as [m Hm].
  rewrite Hm. cbn. eauto.
Qed.

Lemma wrap_text_pushes_empty_line_witness :
  starts_word "aaaa bbbb" = true
  /\ no_newline "aaaa bbbb" = true
  /\ wrap_text fixed_width tt "aaaa bbbb" 64 30 = [""; "aaaa "; "bbbb"]
  /\ exists rest, wrap_text fixed_width tt "aaaa bbbb" 64 30 = "" :: rest.
Proof.
  split; [reflexivity|]. split; [reflexivity|]. split; [reflexivity|].
  apply (wrap_text_pushes_empty_line fixed_width tt 64 30 "aaaa bbbb" eq_refl).
  vm_compute. reflexivity.
Defined.

(** ** TextWindowRenderer: the initial scroll offset *)

Lemma py_max_zero_pos (d : Q) : (0 < d)%Q -> py_max d 0 = d.
Proof.
  intros H. unfold py_max.
  now rewrite (proj2 (Qle_bool_iff 0 d) (Qlt_le_weak _ _ H)).
Qed.

Lemma py_max_zero_nonpos (d : Q) : (d <= 0)%Q -> (py_max d 0 == 0)%Q.
Proof.
  intros H. unfold py_max. destruct (Qle_bool 0 d) eqn:E; [|reflexivity].
  apply Qle_bool_iff in E. now apply Qle_antisym.
Qed.

(** C6: after construction the vertical scroll offset is minus the excess of
    the content height over the viewport height when the content is taller
    than the viewport, and zero otherwise. *)
Theorem initial_scroll_offset
    {Font : Type} (measure_text_ex : Font -> string -> Q -> Q -> Vector2)
    (font : Font) (width height : Z) (scroll_origin : Vector2) (text : string) :
  let r := TextWindowRenderer__init__ measure_text_ex font width height
             scroll_origin text in
  let content := Rectangle.height (_content_rect r) in
  let viewport := Rectangle.height (_textarea_rect r) in
  let offset := y (_offset (_scroll_panel r)) in
  ((viewport < content)%Q -> (offset == - (content - viewport))%Q)
  /\ ((content <= viewport)%Q -> (offset == 0)%Q).
Proof.
  cbn zeta. cbn [TextWindowRenderer__init__ _scroll_panel _offset y
                 _content_rect _textarea_rect Rectangle.height].
  set (content := (inject_Z (Z.of_nat _) * LINE_HEIGHT)%Q).
  set (viewport := inject_Z height).
  split; intros H.
  - rewrite py_max_zero_pos; [reflexivity|].
    unfold Qminus. now rewrite <- Qlt_minus_iff.
  - rewrite py_max_zero_nonpos; [reflexivity|].
    apply Qle_minus_iff. unfold Qminus.
    setoid_replace (0 + - (content + - viewport))%Q
      with (viewport + - content)%Q by ring.
    exact (proj1 (Qle_minus_iff content viewport) H).
Qed.

Lemma initial_scroll_offset_witness :
  (y (_offset (_scroll_panel
        (TextWindowRenderer__init__ fixed_width tt 200 100 origin
           ("a" ++ nl ++ "b")))) == - (144 - 100))%Q
  /\ (y (_offset (_scroll_panel
        (TextWindowRenderer__init__ fixed_width tt 200 400 origin
           ("a" ++ nl ++ "b")))) == 0)%Q.
Proof.
  split.
  - apply (proj1 (initial_scroll_offset fixed_width tt 200 100 origin
                    ("a" ++ nl ++ "b"))).
    vm_compute. reflexivity.
  - apply (proj2 (initial_scroll_offset fixed_width tt 200 400 origin
                    ("a" ++ nl ++ "b"))).
    vm_compute. discriminate.
Defined.

(** ** TextWindow: the worker and the session protocol *)

Lemma closes_push (calls : list gui_call) (c : gui_call) :
  closes (push calls c) = (closes calls + (if is_close c then 1 else 0))%nat.
Proof.
  unfold closes, push. rewrite filter_app, length_app. simpl.
  destruct (is_close c); reflexivity.
Qed.

Section Session.

Context {Font : Type}.
Variable measure_text_ex : Font -> string -> Q -> Q -> Vector2.
Variable font : Font.
Variables width height : Z.
Variable scroll_origin : Vector2.
Variable getenv_CI : option string.
Variable frames : nat -> tick.

Local Abbreviation step :=
  (_run measure_text_ex font width height scroll_origin getenv_CI frames).
Local Abbreviation steps :=
  (run_worker measure_text_ex font width height scroll_origin getenv_CI frames).
Local Abbreviation closing :=
  (close measure_text_ex font width height scroll_origin getenv_CI frames).
Local Abbreviation reach :=
  (reachable measure_text_ex font width height scroll_origin getenv_CI frames).
Local Abbreviation construct :=
  (TextWindow__init__ measure_text_ex font width height scroll_origin getenv_CI frames).
Local Abbreviation wait :=
  (wait_for_renderer measure_text_ex font width height scroll_origin getenv_CI frames).

Lemma run_finished (self : TextWindow) :
  is_alive self = false -> step self = self.
Proof.
  unfold is_alive, _run. destruct (_thread self); try discriminate. reflexivity.
Qed.

Lemma run_worker_finished (n : nat) (self : TextWindow) :
  is_alive self = false -> steps n self = self.
Proof.
  intros H. induction n as [|n IH]; simpl; [reflexivity|].
  now rewrite (run_finished self H).
Qed.

Lemma reachable_run_worker (text : string) (n : nat) : forall self,
  reach text self -> reach text (steps n self).
Proof.
  induction n as [|n IH]; intros self H; simpl; [assumption|].
  apply IH. eapply reach_move; [exact H | constructor].
Qed.

Lemma close_not_alive (self : TextWindow) (k : nat) :
  is_alive self = false -> closing k self = (self, []).
Proof. intros H. unfold close. now rewrite H. Qed.

(** C7: closing a session whose worker has finished does nothing: the
    session is returned as it was and the creating thread neither sets the
    stop flag nor joins nor prints; closing again, any number of times,
    changes nothing either. *)
Theorem close_finished (self : TextWindow) (n m : nat) :
  is_alive self = false ->
  closing n self = (self, [])
  /\ closing m (fst (closing n self)) = (self, []).
Proof.
  intros H. rewrite (close_not_alive self n H). cbn [fst].
  split; [reflexivity | exact (close_not_alive self m H)].
Qed.

(** *** Headless runs *)

Section Headless.

Variable flag : string.
Hypothesis headless : getenv_CI = Some flag.

Lemma headless_run (text : string) :
  step (created text) = skipped_session text.
Proof. unfold _run. simpl. now rewrite headless. Qed.

Lemma headless_steps (text : string) (n : nat) :
  steps (S n) (created text) = skipped_session text.
Proof.
  simpl. rewrite headless_run. now apply run_worker_finished.
Qed.

Lemma headless_reachable (text : string) (self : TextWindow) :
  reach text self ->
  gui_app self = [] /\ _renderer self = None
  /\ (_thread self = Started \/ _thread self = Finished Returned).
Proof.
  induction 1 as [|s s' Hs IH Hmove].
  - simpl. auto.
  - destruct IH as [Hg [Hr Ht]].
    destruct Hmove as [s|s]; [|simpl; auto].
    unfold _run. destruct Ht as [Ht|Ht]; rewrite Ht; [|auto].
    rewrite headless. simpl. auto.
Qed.

Lemma headless_wait (pace : nat -> nat) (text : string) (fuel : nat) :
  forall k j self,
    (k <= j)%nat -> (0 < pace j)%nat -> (j - k < fuel)%nat ->
    self = created text \/ self = skipped_session text ->
    wait fuel pace k self = Some (skipped_session text).
Proof.
  induction fuel as [|fuel IH]; intros k j self Hkj Hj Hfuel Hself; [lia|].
  cbn [wait_for_renderer].
  assert (Hdone : forall n, steps n (skipped_session text) = skipped_session text)
    by (intros n; now apply run_worker_finished).
  destruct Hself as [-> | ->].
  - destruct (pace k) as [|n] eqn:Hk.
    + assert (Hlt : (k < j)%nat).
      { destruct (Nat.eq_dec k j) as [E|]; [|lia]. rewrite <- E in Hj. lia. }
      cbn [run_worker created _renderer is_None is_alive _thread andb].
      apply (IH (S k) j); [lia | assumption | lia | now left].
    + now rewrite headless_steps.
  - now rewrite Hdone.
Qed.

(** C8: with the headless flag present the worker returns at its first
    step, having asked nothing of the window shell and built no renderer,
    and this stays so whatever the threads do; construction returns as
    soon as the worker has been scheduled once, with the worker finished;
    closing the session then does nothing and does not wait. *)
Theorem headless_session_is_inert (pace : nat -> nat) (text : string) (j fuel : nat) :
  (0 < pace j)%nat -> (j < fuel)%nat ->
  step (created text) = skipped_session text
  /\ (forall self, reach text self ->
        gui_app self = [] /\ _renderer self = None)
  /\ construct fuel pace text = Some (skipped_session text)
  /\ gui_app (skipped_session text) = []
  /\ _renderer (skipped_session text) = None
  /\ is_alive (skipped_session text) = false
  /\ (forall n, closing n (skipped_session text) = (skipped_session text, [])).
Proof.
  intros Hj Hfuel.
  split; [apply headless_run|].
  split; [intros self H; destruct (headless_reachable text self H) as [? [? _]]; auto|].
  split.
  { unfold TextWindow__init__.
    apply (headless_wait pace text fuel 0 j); [lia | assumption | lia | now left]. }
  do 3 (split; [reflexivity|]).
  intros n. now apply close_not_alive.
Qed.

End Headless.

(** *** Runs with a window *)

Section Windowed.

Hypothesis windowed : getenv_CI = None.

Lemma worker_releases_once (text : string) (self : TextWindow) :
  reach text self ->
  match _thread self with
  | Finished _ =>
      closes (gui_app self) = 1%nat
      /\ exists before, gui_app self = (before ++ [CloseWindow])%list
  | _ => closes (gui_app self) = 0%nat
  end.
Proof.
  induction 1 as [|s s' Hs IH Hmove]; [reflexivity|].
  destruct Hmove as [s|s]; [|exact IH].
  unfold _run. destruct (_thread s) as [| |i|o] eqn:Ht.
  - rewrite windowed. cbn [goto gui publish _thread gui_app]. now rewrite closes_push, IH.
  - exact IH.
  - destruct (frames i) as [|raises].
    + cbn [goto gui publish _thread gui_app]. rewrite closes_push, IH.
      split; [reflexivity | now exists (gui_app s)].
    + destruct (_stop_event s); [|destruct raises]; cbn [goto gui publish _thread gui_app].
      * rewrite closes_push, IH.
        split; [reflexivity | now exists (gui_app s)].
      * rewrite !closes_push, IH.
        split; [reflexivity | now exists (push (gui_app s) RenderFrame)].
      * now rewrite closes_push, IH.
  - rewrite Ht. exact IH.
Qed.

(** C9: in a run that opens the window, whenever the worker has finished
    the window was released exactly once, as the last thing asked of the
    shell, and while the worker is alive it was not released yet; each of
    the three ways out of the loop (no more frames, stop flag set,
    rendering raised) finishes the worker by one more step, which ends
    with the release. *)
Theorem window_released_exactly_once (text : string) (self : TextWindow) :
  reach text self ->
  (is_alive self = false ->
     closes (gui_app self) = 1%nat
     /\ exists before, gui_app self = (before ++ [CloseWindow])%list)
  /\ (is_alive self = true -> closes (gui_app self) = 0%nat)
  /\ (forall i, _thread self = InLoop i ->
        frames i = WindowClosed \/ _stop_event self = true
        \/ frames i = Frame true ->
        is_alive (step self) = false
        /\ closes (gui_app (step self)) = 1%nat
        /\ exists rendered,
             gui_app (step self) = (gui_app self ++ rendered ++ [CloseWindow])%list
             /\ closes rendered = 0%nat).
Proof.
  intros Hreach. pose proof (worker_releases_once text self Hreach) as Hinv.
  split; [|split].
  - unfold is_alive. destruct (_thread self); try discriminate. auto.
  - unfold is_alive. destruct (_thread self); try discriminate; auto.
  - intros i Hi Hexit.
    assert (Hnext : reach text (step self))
      by (eapply reach_move; [exact Hreach | constructor]).
    apply worker_releases_once in Hnext.
    rewrite Hi in Hinv. revert Hnext. unfold _run. rewrite Hi.
    destruct (frames i) as [|raises].
    + cbn [goto gui publish _thread gui_app]. intros [H1 _]. repeat split; try assumption.
      exists []. split; reflexivity.
    + destruct (_stop_event self) eqn:Hstop.
      * cbn [goto gui publish _thread gui_app]. intros [H1 _]. repeat split; try assumption.
        exists []. split; reflexivity.
      * destruct Hexit as [E | [E | E]]; try discriminate.
        injection E as ->. cbn [goto gui publish _thread gui_app]. intros [H1 _]. repeat split; try assumption.
        exists [RenderFrame]. unfold push. rewrite <- app_assoc.
        split; reflexivity.
Qed.

End Windowed.

End Session.

(** ** The session properties at concrete runs *)

Lemma close_finished_witness :
  is_alive closed_session = false
  /\ close fixed_width tt 200 100 origin None endless_frames 5 closed_session
     = (closed_session, [])
  /\ close fixed_width tt 200 100 origin None endless_frames 7
       (fst (close fixed_width tt 200 100 origin None endless_frames 5 closed_session))
     = (closed_session, []).
Proof.
  split; [reflexivity|].
  exact (close_finished fixed_width tt 200 100 origin None endless_frames
           closed_session 5 7 eq_refl).
Defined.

Lemma headless_session_is_inert_witness :
  TextWindow__init__ fixed_width tt 200 100 origin (Some "1") two_frames
    4 late_start "hi" = Some (skipped_session "hi")
  /\ gui_app (skipped_session "hi") = []
  /\ forall n, close fixed_width tt 200 100 origin (Some "1") two_frames n
                 (skipped_session "hi") = (skipped_session "hi", []).
Proof.
  assert (Hj : (0 < late_start 3)%nat) by (vm_compute; lia).
  assert (Hfuel : (3 < 4)%nat) by lia.
  destruct (headless_session_is_inert fixed_width tt 200 100 origin (Some "1")
              two_frames "1" eq_refl late_start "hi" 3 4 Hj Hfuel)
    as [_ [_ [Hinit [Hgui [_ [_ Hclose]]]]]].
  split; [exact Hinit | split; [exact Hgui | exact Hclose]].
Defined.

Lemma window_released_exactly_once_witness :
  (* the window is closed by the user after two frames *)
  (gui_app (session_after None two_frames 5)
     = [InitWindow "Text"; RenderFrame; RenderFrame; CloseWindow]
   /\ is_alive (session_after None two_frames 5) = false
   /\ closes (gui_app (session_after None two_frames 5)) = 1%nat)
  (* rendering the second frame raises *)
  /\ (gui_app (session_after None failing_frame 4)
        = [InitWindow "Text"; RenderFrame; RenderFrame; CloseWindow]
      /\ _thread (session_after None failing_frame 4) = Finished Raised
      /\ closes (gui_app (session_after None failing_frame 4)) = 1%nat)
  (* the stop flag is set after the first frame *)
  /\ (gui_app stopped_session = [InitWindow "Text"; RenderFrame; CloseWindow]
      /\ is_alive stopped_session = false
      /\ closes (gui_app stopped_session) = 1%nat)
  (* the window is never closed and nobody asks to stop *)
  /\ (is_alive (session_after None endless_frames 9) = true
      /\ closes (gui_app (session_after None endless_frames 9)) = 0%nat).
Proof.
  assert (R : forall frames n,
             reachable fixed_width tt 200 100 origin None frames "hi"
               (session_after None frames n)).
  { intros frames n. apply reachable_run_worker. constructor. }
  split; [|split; [|split]].
  - split; [reflexivity|]. split; [reflexivity|].
    exact (proj1 (proj1 (window_released_exactly_once fixed_width tt 200 100
                           origin None two_frames eq_refl "hi" _ (R two_frames 5%nat))
                    eq_refl)).
  - split; [reflexivity|]. split; [reflexivity|].
    exact (proj1 (proj1 (window_released_exactly_once fixed_width tt 200 100
                           origin None failing_frame eq_refl "hi" _ (R failing_frame 4%nat))
                    eq_refl)).
  - split; [reflexivity|]. split; [reflexivity|].
    assert (R' : reachable fixed_width tt 200 100 origin None endless_frames "hi"
                   stopped_session).
    { eapply reach_move; [|apply move_worker].
      eapply reach_move; [apply (R endless_frames 3%nat) | apply move_stop]. }
    exact (proj1 (proj1 (window_released_exactly_once fixed_width tt 200 100
                           origin None endless_frames eq_refl "hi" _ R')
                    eq_refl)).
  - split; [reflexivity|].
    exact (proj1 (proj2 (window_released_exactly_once fixed_width tt 200 100
                           origin None endless_frames eq_refl "hi" _
                           (R endless_frames 9%nat)))
             eq_refl).
Defined.

(** * Further properties of the code *)

(** ** wrap_text: blank texts, composition, texts that need no wrapping *)

Lemma tokens_nil_all_space (s : string) : tokens s = [] -> all_space s = true.
Proof.
  induction s as [|c s IH]; simpl; [reflexivity|].
  destruct (isspace c); [exact IH|].
  destruct (starts_word s); [destruct (tokens s)|]; discriminate.
Qed.

Lemma no_newline_app (a b : string) :
  no_newline (a ++ b) = no_newline a && no_newline b.
Proof.
  induction a as [|c a IH]; simpl; [reflexivity|].
  now rewrite IH, andb_assoc.
Qed.

Lemma split_newline_app (a b : string) :
  split_newline (a ++ String newline b)
  = (split_newline a ++ split_newline b)%list.
Proof.
  induction a as [|c a IH]; simpl; [reflexivity|].
  rewrite IH. destruct (Ascii.eqb c newline); [reflexivity|].
  pose proof (split_newline_nonempty a) as Hne.
  destruct (split_newline a); [contradiction | reflexivity].
Qed.

Lemma split_newline_no_newline (s : string) :
  Forall (fun p => no_newline p = true) (split_newline s).
Proof.
  induction s as [|c s IH]; simpl; [now repeat constructor|].
  destruct (Ascii.eqb c newline) eqn:Hc; [now constructor|].
  destruct (split_newline s) as [|p ps]; [now repeat constructor; simpl; rewrite Hc|].
  inversion IH; subst. constructor; [|assumption]. simpl. now rewrite Hc.
Qed.

Lemma split_newline_all_space (s : string) :
  all_space s = true -> Forall (fun p => all_space p = true) (split_newline s).
Proof.
  induction s as [|c s IH]; simpl; [now repeat constructor|].
  intros H. apply andb_true_iff in H as [Hc Hs]. specialize (IH Hs).
  destruct (Ascii.eqb c newline); [now constructor|].
  destruct (split_newline s) as [|p ps]; [now repeat constructor; simpl; rewrite Hc|].
  inversion IH; subst. constructor; [|assumption]. simpl. now rewrite Hc.
Qed.

Section WrapComposition.

Context {Font : Type}.
Variable measure_text_ex : Font -> string -> Q -> Q -> Vector2.
Variable font : Font.
Variables font_size max_width : Q.

Local Abbreviation loop := (wrap_words measure_text_ex font font_size max_width).
Local Abbreviation para := (wrap_paragraph measure_text_ex font font_size max_width).
Local Abbreviation wrap := (fun text => wrap_text measure_text_ex font text font_size max_width).
Local Abbreviation ok := (fits measure_text_ex font font_size max_width).

Lemma wrap_paragraph_blank (lines : list string) (p : string) :
  all_space p = true ->
  para lines p = if nonempty lines then push lines "" else lines.
Proof.
  intros H. unfold wrap_paragraph. now rewrite (all_space_blank p H).
Qed.

Lemma fold_blank_paragraphs (ps : list string) :
  Forall (fun p => all_space p = true) ps -> fold_left para ps [] = [].
Proof.
  induction 1 as [|p ps Hp _ IH]; simpl; [reflexivity|].
  now rewrite (wrap_paragraph_blank [] p Hp).
Qed.

Lemma wrap_text_has_word (text : string) :
  wrap text = [] -> all_space text = true.
Proof.
  intros H. apply tokens_nil_all_space.
  rewrite <- (wrap_text_words measure_text_ex font font_size max_width text).
  now rewrite H.
Qed.

Lemma wrap_text_blank_nil (text : string) :
  all_space text = true -> wrap text = [].
Proof.
  intros H. unfold wrap_text.
  apply fold_blank_paragraphs. now apply split_newline_all_space.
Qed.

(** X1: no display line comes back exactly when the text has no word, that
    is, when it consists of whitespace only (newlines included). *)
Theorem wrap_text_nil_iff (text : string) :
  wrap text = [] <-> all_space text = true.
Proof.
  split; [apply wrap_text_has_word | apply wrap_text_blank_nil].
Qed.

Lemma wrap_text_app (a b : string) :
  wrap (a ++ String newline b) = fold_left para (split_newline b) (wrap a).
Proof. unfold wrap_text. now rewrite split_newline_app, fold_left_app. Qed.

(** X2: text that follows a newline never changes the display lines already
    produced for what stands before it: the lines of [a] are a prefix of the
    lines of [a], newline, [b]. *)
Theorem wrap_text_prefix (a b : string) :
  exists more, wrap (a ++ nl ++ b) = (wrap a ++ more)%list.
Proof.
  change (a ++ nl ++ b) with (a ++ String newline b).
  cbv beta. rewrite wrap_text_app. apply fold_paragraphs_extends.
Qed.

(** X3: whitespace in front of the first word's paragraph leaves no trace:
    a text made of whitespace, a newline and [a] is wrapped as [a] alone. *)
Theorem wrap_text_leading_blank (ws a : string) :
  all_space ws = true -> wrap (ws ++ nl ++ a) = wrap a.
Proof.
  intros H. change (ws ++ nl ++ a) with (ws ++ String newline a).
  cbv beta. rewrite wrap_text_app.
  assert (E : wrap ws = []) by (apply wrap_text_blank_nil; exact H).
  cbv beta in E. now rewrite E.
Qed.

(** X4: once the text has a word, a blank paragraph after it gives exactly
    one blank-line marker; in particular a trailing newline adds one empty
    display line. *)
Theorem wrap_text_trailing_blank (a ws : string) :
  all_space a = false -> all_space ws = true -> no_newline ws = true ->
  wrap (a ++ nl ++ ws) = (wrap a ++ [""])%list.
Proof.
  intros Ha Hws Hnl. change (a ++ nl ++ ws) with (a ++ String newline ws).
  cbv beta. rewrite wrap_text_app, (split_newline_single ws Hnl).
  cbn [fold_left]. rewrite (wrap_paragraph_blank _ ws Hws).
  destruct (wrap_text measure_text_ex font a font_size max_width)
    as [|l ls] eqn:E; [|reflexivity].
  apply wrap_text_has_word in E. congruence.
Qed.

(** *** Texts whose paragraphs all fit *)

Section Monotone.

Hypothesis measure_monotone : monotone measure_text_ex.

Lemma wrap_paragraph_fitting (lines : list string) (p : string) :
  truthy (strip p) = true -> ok p ->
  para lines p = push lines (rstrip p).
Proof.
  intros Hp Hfit. unfold wrap_paragraph. rewrite Hp. simpl.
  rewrite (wrap_words_fitting measure_text_ex font font_size max_width
             measure_monotone _ (re_split_spaces_pieces _)).
  - rewrite re_split_spaces_glue, <- indent_split.
    now rewrite (rstrip_nonblank p Hp).
  - now rewrite re_split_spaces_glue, <- indent_split.
Qed.

Lemma fold_fitting_paragraphs (ps : list string) : forall lines,
  Forall ok ps ->
  fold_left para ps lines
  = (lines ++ (if nonempty lines then map rstrip ps
               else drop_blank_head (map rstrip ps)))%list.
Proof.
  induction ps as [|p ps IH]; intros lines Hfit; simpl.
  - destruct lines; simpl; now rewrite ?app_nil_r.
  - inversion Hfit as [|? ? Hp Hps]; subst.
    destruct (truthy (strip p)) eqn:Hblank.
    + rewrite (wrap_paragraph_fitting lines p Hblank Hp), (IH _ Hps).
      pose proof (rstrip_nonblank p Hblank) as Hne.
      unfold push. assert (E : nonempty (lines ++ [rstrip p])%list = true)
        by (destruct lines; reflexivity).
      rewrite E, <- app_assoc. simpl.
      destruct lines; simpl; [|reflexivity].
      destruct (rstrip p); [discriminate | reflexivity].
    + pose proof (blank_all_space p Hblank) as Hall.
      rewrite (wrap_paragraph_blank lines p Hall), (rstrip_all_space p Hall).
      destruct lines as [|l lines]; simpl.
      * now rewrite (IH [] Hps).
      * rewrite (IH _ Hps). unfold push. simpl. now rewrite <- app_assoc.
Qed.

(** X5: when the measurement is monotone and every paragraph of the text
    fits, nothing is wrapped: the display lines are the paragraphs with their
    trailing whitespace stripped, without the blank ones the text starts
    with. *)
Theorem wrap_text_all_fitting (text : string) :
  Forall ok (split_newline text) ->
  wrap text = drop_blank_head (map rstrip (split_newline text)).
Proof.
  intros H. unfold wrap_text. now rewrite (fold_fitting_paragraphs _ [] H).
Qed.

End Monotone.

End WrapComposition.

(** ** wrap_text: what a display line looks like *)

Lemma no_newline_rstrip (s : string) :
  no_newline s = true -> no_newline (rstrip s) = true.
Proof.
  intros H. destruct (rstrip_split s) as [ws [Hs _]].
  rewrite Hs, no_newline_app in H. now apply andb_true_iff in H as [H _].
Qed.

Lemma no_newline_glue (l : list string) :
  no_newline (glue l) = true -> Forall (fun p => no_newline p = true) l.
Proof.
  induction l as [|p l IH]; simpl; [constructor|].
  rewrite no_newline_app. intros H. apply andb_true_iff in H as [Hp Hl].
  constructor; auto.
Qed.

Lemma rstrip_keeps (a : string) (c : ascii) (t : string) :
  isspace c = false ->
  exists t', rstrip (a ++ String c t) = a ++ String c t'.
Proof.
  intros Hc. induction a as [|d a [t' IH]]; simpl.
  - destruct (rstrip t) as [|e r]; rewrite ?Hc; eauto.
  - rewrite IH. destruct a; simpl; eauto.
Qed.

Section WrapLines.

Context {Font : Type}.
Variable measure_text_ex : Font -> string -> Q -> Q -> Vector2.
Variable font : Font.
Variables font_size max_width : Q.

Local Abbreviation place := (place_word measure_text_ex font font_size max_width).
Local Abbreviation loop := (wrap_words measure_text_ex font font_size max_width).
Local Abbreviation para := (wrap_paragraph measure_text_ex font font_size max_width).
Local Abbreviation wrap := (fun text => wrap_text measure_text_ex font text font_size max_width).
Local Abbreviation one_line := (fun p : string => no_newline p = true).

Lemma place_word_no_newline lines cur w sep :
  Forall one_line lines -> one_line cur -> one_line w -> one_line sep ->
  Forall one_line (fst (place (lines, cur) w sep))
  /\ one_line (snd (place (lines, cur) w sep)).
Proof.
  cbv beta. intros Hl Hc Hw Hs. unfold place_word.
  destruct (Qle_bool _ _); simpl.
  - split; [assumption|]. now rewrite !no_newline_app, Hc, Hw, Hs.
  - split; [|now rewrite no_newline_app, Hw].
    unfold push. apply Forall_app. split; [assumption | now constructor].
Qed.

Lemma wrap_words_no_newline words : forall lines cur,
  Forall one_line words -> Forall one_line lines -> one_line cur ->
  Forall one_line (fst (loop words (lines, cur)))
  /\ one_line (snd (loop words (lines, cur))).
Proof.
  induction words as [words IH] using (induction_ltof1 _ (@List.length string)).
  unfold ltof in IH. cbv beta in *. intros lines cur Hw Hl Hc.
  destruct words as [|w [|sep rest]].
  - simpl. auto.
  - inversion Hw; subst. now apply place_word_no_newline.
  - change (loop (w :: sep :: rest) (lines, cur))
      with (loop rest (place (lines, cur) w sep)).
    inversion Hw as [|? ? Hw1 Hw2]; subst. inversion Hw2 as [|? ? Hs Hrest]; subst.
    destruct (place_word_no_newline lines cur w sep Hl Hc Hw1 Hs) as [Hl1 Hc1].
    destruct (place (lines, cur) w sep) as [lines1 cur1].
    apply IH; simpl in *; auto.
Qed.

Lemma wrap_paragraph_no_newline lines p :
  Forall one_line lines -> one_line p -> Forall one_line (para lines p).
Proof.
  cbv beta. intros Hl Hp. unfold wrap_paragraph.
  destruct (truthy (strip p)); simpl.
  - assert (Hparts : no_newline (re_match_spaces p) = true
                     /\ no_newline (slice_from (String.length (re_match_spaces p)) p) = true).
    { rewrite (indent_split p), no_newline_app in Hp.
      now apply andb_true_iff in Hp. }
    destruct Hparts as [Hi Hr].
    destruct (wrap_words_no_newline
                (re_split_spaces (slice_from (String.length (re_match_spaces p)) p))
                lines (re_match_spaces p)) as [Hl1 Hc1]; try assumption.
    { apply no_newline_glue. now rewrite re_split_spaces_glue. }
    destruct (loop _ _) as [lines1 cur1]. simpl in *.
    destruct (truthy (rstrip cur1)); [|assumption].
    unfold push. apply Forall_app. split; [assumption|].
    constructor; [now apply no_newline_rstrip | constructor].
  - destruct (nonempty lines); [|assumption].
    unfold push. apply Forall_app. split; [assumption | now repeat constructor].
Qed.

(** X6: no display line contains a newline character: every element of the
    result can be drawn on one row. *)
Theorem wrap_text_lines_one_row (text : string) :
  Forall (fun line => no_newline line = true) (wrap text).
Proof.
  unfold wrap_text.
  assert (H : forall ps lines,
             Forall one_line ps -> Forall one_line lines ->
             Forall one_line (fold_left para ps lines)).
  { induction ps as [|p ps IH]; intros lines Hps Hl; simpl; [assumption|].
    inversion Hps; subst. apply IH; [assumption|].
    now apply wrap_paragraph_no_newline. }
  apply H; [apply split_newline_no_newline | constructor].
Qed.

(** *** The indent stays in front *)

(** The state of the loop once the first word of the paragraph was placed:
    either a line was pushed and the first one starts with the indent, or
    none was and the current line is the indent followed by a word. *)
Local Abbreviation indented := (fun (indent : string) (first_pushed : list string) (st : list string * string) =>
  (exists first rest t, fst st = (first_pushed ++ first :: rest)%list /\ first = indent ++ t)
  \/ (fst st = first_pushed
      /\ exists c t, isspace c = false /\ snd st = indent ++ String c t)).

Lemma place_word_indented indent lines0 st w sep :
  indented indent lines0 st -> indented indent lines0 (place st w sep).
Proof.
  cbv beta. destruct st as [lines cur]. simpl. unfold place_word.
  intros [[first [rest [t [Hl Hf]]]] | [Hl [c [t [Hc Hcur]]]]];
    destruct (Qle_bool _ _); simpl.
  - left. eauto.
  - left. exists first, (rest ++ [cur])%list, t. split; [|assumption].
    unfold push. rewrite Hl, <- app_assoc. reflexivity.
  - right. split; [assumption|]. exists c, (t ++ w ++ sep). split; [assumption|].
    rewrite Hcur, append_assoc. reflexivity.
  - left. exists cur, [], (String c t). split; [|assumption].
    unfold push. now rewrite Hl.
Qed.

Lemma wrap_words_indented indent lines0 words : forall st,
  indented indent lines0 st -> indented indent lines0 (loop words st).
Proof.
  induction words as [words IH] using (induction_ltof1 _ (@List.length string)).
  unfold ltof in IH. intros st H.
  destruct words as [|w [|sep rest]].
  - exact H.
  - now apply place_word_indented.
  - change (loop (w :: sep :: rest) st) with (loop rest (place st w sep)).
    apply IH; [simpl; lia|]. now apply place_word_indented.
Qed.

Lemma first_word_indented indent lines0 w sep :
  starts_word w = true ->
  indented indent lines0 (place (lines0, indent) w sep).
Proof.
  cbv beta. intros Hw. unfold place_word. destruct (Qle_bool _ _); simpl.
  - right. split; [reflexivity|].
    destruct w as [|c w]; [discriminate|]. simpl in Hw.
    apply negb_true_iff in Hw. exists c, (w ++ sep). now split.
  - left. exists indent, [], "". split; [reflexivity | now rewrite append_nil_r].
Qed.

Lemma no_space_starts_word (w : string) :
  no_space w = true -> truthy w = true -> starts_word w = true.
Proof.
  destruct w as [|c w]; [discriminate|]. simpl.
  intros H _. now apply andb_true_iff in H as [H _].
Qed.

Lemma wrap_paragraph_indented lines0 p :
  truthy (strip p) = true ->
  exists first rest t,
    para lines0 p = (lines0 ++ first :: rest)%list
    /\ first = re_match_spaces p ++ t.
Proof.
  intros Hp. unfold wrap_paragraph. rewrite Hp. cbn [negb].
  pose proof (nonblank_rest p Hp) as Hrest.
  pose proof (re_split_spaces_head (slice_from (String.length (re_match_spaces p)) p)) as Hh.
  pose proof (re_split_spaces_pieces (slice_from (String.length (re_match_spaces p)) p)) as Hshape.
  set (indent := re_match_spaces p) in *.
  assert (Hloop : indented indent lines0
            (loop (re_split_spaces (slice_from (String.length indent) p))
               (lines0, indent))).
  { destruct Hshape as [w Hw | w sep rest Hw Hsep Hne Hshape Hin];
      rewrite Hrest in Hh; pose proof (no_space_starts_word w Hw Hh) as Hstart.
    - now apply first_word_indented.
    - change (loop (w :: sep :: rest) (lines0, indent))
        with (loop rest (place (lines0, indent) w sep)).
      apply wrap_words_indented. now apply first_word_indented. }
  cbv beta in Hloop.
  destruct (loop _ _) as [lines1 cur1]. cbn [fst snd] in Hloop.
  destruct Hloop as [[first [rest [t [Hl Hf]]]] | [Hl [c [t [Hc Hcur]]]]].
  - subst lines1. destruct (truthy (rstrip cur1)).
    + exists first, (rest ++ [rstrip cur1])%list, t. split; [|assumption].
      unfold push. now rewrite <- app_assoc.
    + now exists first, rest, t.
  - subst lines1 cur1. destruct (rstrip_keeps indent c t Hc) as [t' Ht].
    rewrite Ht. assert (E : truthy (indent ++ String c t') = true)
      by (destruct indent; reflexivity).
    rewrite E. now exists (indent ++ String c t'), [], (String c t').
Qed.

(** X7: the indent of a paragraph is kept in front of its first display
    line: for a paragraph with at least one non-whitespace character and no
    newline, alone or after other text, the first line it contributes starts
    with the paragraph's leading whitespace. *)
Theorem wrap_text_keeps_indent (a p : string) :
  no_newline p = true -> truthy (strip p) = true ->
  (exists first rest t,
     wrap p = first :: rest /\ first = re_match_spaces p ++ t)
  /\ (exists first rest t,
        wrap (a ++ nl ++ p) = (wrap a ++ first :: rest)%list
        /\ first = re_match_spaces p ++ t).
Proof.
  intros Hnl Hp. split.
  - unfold wrap_text. rewrite (split_newline_single p Hnl). cbn [fold_left].
    apply (wrap_paragraph_indented [] p Hp).
  - change (a ++ nl ++ p) with (a ++ String newline p). unfold wrap_text.
    rewrite split_newline_app, fold_left_app, (split_newline_single p Hnl).
    cbn [fold_left]. apply (wrap_paragraph_indented _ p Hp).
Qed.

End WrapLines.

(** ** TextWindowRenderer.render: which lines are drawn *)

Lemma Qlt_bool_iff (a b : Q) : Qlt_bool a b = true <-> (a < b)%Q.
Proof.
  unfold Qlt_bool. rewrite negb_true_iff. split; intros H.
  - apply Qnot_le_lt. intros E. apply Qle_bool_iff in E. congruence.
  - apply not_true_is_false. intros E. apply Qle_bool_iff in E.
    exact (Qlt_not_le _ _ H E).
Qed.

Lemma Qlt_bool_false (a b : Q) : Qlt_bool a b = false <-> (b <= a)%Q.
Proof.
  unfold Qlt_bool. rewrite negb_false_iff. apply Qle_bool_iff.
Qed.

Lemma drawn_texts_app {Font : Type} (a b : list (render_call Font)) :
  drawn_texts (a ++ b)%list = (drawn_texts a ++ drawn_texts b)%list.
Proof.
  induction a as [|c a IH]; simpl; [reflexivity|].
  destruct c; simpl; now rewrite IH.
Qed.

Section RenderLines.

Context {Font : Type}.
Variable font_100 : Font.
Variables width height : Z.
Variable PC : bool.
Variable self : TextWindowRenderer.
Variable scroll : Vector2.

Local Abbreviation top := (Rectangle.y (_textarea_rect self)).
Local Abbreviation tall := (Rectangle.height (_textarea_rect self)).
Local Abbreviation pos_y := (fun i => y (line_position self scroll i)).
Local Abbreviation draws := (draw_lines font_100 self scroll).

Lemma line_position_succ (i : nat) :
  (pos_y (S i) == pos_y i + 72)%Q.
Proof.
  cbv beta. unfold line_position, LINE_HEIGHT. cbn [y].
  rewrite Nat2Z.inj_succ. unfold Z.succ. rewrite inject_Z_plus. ring.
Qed.

Lemma line_skipped_cases (i : nat) :
  line_skipped self (line_position self scroll i) = true
  <-> ((pos_y i + 72 < top)%Q \/ (top + tall < pos_y i)%Q).
Proof.
  unfold line_skipped, LINE_HEIGHT. rewrite orb_true_iff, !Qlt_bool_iff.
  reflexivity.
Qed.

Lemma line_drawn_cases (i : nat) :
  line_skipped self (line_position self scroll i) = false
  <-> ((top <= pos_y i + 72)%Q /\ (pos_y i <= top + tall)%Q).
Proof.
  unfold line_skipped, LINE_HEIGHT. rewrite orb_false_iff, !Qlt_bool_false.
  reflexivity.
Qed.

(** Below the viewport nothing is drawn any more. *)
Lemma draw_lines_below (lines : list string) : forall i,
  (top + tall < pos_y i)%Q -> draws i lines = [].
Proof.
  induction lines as [|line lines IH]; intros i Hbelow; [reflexivity|].
  cbn [draw_lines].
  rewrite (proj2 (line_skipped_cases i) (or_intror Hbelow)).
  apply IH. pose proof (line_position_succ i) as E. cbv beta in *.
  rewrite E. lra.
Qed.

(** From a line that is not above the viewport on, the lines drawn are a
    prefix of the remaining ones, and each costs one line height of what is
    left of the viewport. *)
Lemma draw_lines_from_inside (lines : list string) : forall i,
  (top <= pos_y i + 72)%Q ->
  (exists count, drawn_texts (draws i lines) = firstn count lines)
  /\ (draws i lines = []
      \/ (inject_Z (Z.of_nat (List.length (draws i lines))) * 72
          <= top + tall - pos_y i + 72)%Q).
Proof.
  induction lines as [|line lines IH]; intros i Hin.
  - split; [now exists 0%nat | now left].
  - cbn [draw_lines].
    pose proof (line_position_succ i) as E. cbv beta in E.
    destruct (line_skipped self (line_position self scroll i)) eqn:Hskip.
    + apply line_skipped_cases in Hskip. cbv beta in *.
      destruct Hskip as [Habove | Hbelow]; [lra|].
      rewrite draw_lines_below by (cbv beta; rewrite E; lra).
      split; [now exists 0%nat | now left].
    + apply line_drawn_cases in Hskip. cbv beta in *.
      destruct (IH (S i)) as [[count Hcount] Hcost]; [cbv beta; rewrite E; lra|].
      split.
      * exists (S count). cbn [drawn_texts firstn]. now rewrite Hcount.
      * right. cbn [List.length]. rewrite Nat2Z.inj_succ. unfold Z.succ.
        rewrite inject_Z_plus.
        destruct Hcost as [Hnil | Hcost].
        -- rewrite Hnil. cbn [List.length Z.of_nat].
           change (inject_Z 0) with 0%Q. change (inject_Z 1) with 1%Q. lra.
        -- cbv beta in Hcost. rewrite E in Hcost.
           change (inject_Z 1) with 1%Q. lra.
Qed.

Lemma draw_lines_shape (lines : list string) : forall i,
  (exists first count,
     drawn_texts (draws i lines) = firstn count (skipn first lines))
  /\ (draws i lines = []
      \/ (inject_Z (Z.of_nat (List.length (draws i lines))) * 72
          <= tall + 144)%Q).
Proof.
  induction lines as [|line lines IH]; intros i.
  - split; [now exists 0%nat, 0%nat | now left].
  - destruct (Qlt_le_dec (pos_y i + 72) top) as [Habove | Hin].
    + cbn [draw_lines].
      rewrite (proj2 (line_skipped_cases i) (or_introl Habove)).
      destruct (IH (S i)) as [[first [count H]] Hcost].
      split; [now exists (S first), count | exact Hcost].
    + destruct (draw_lines_from_inside (line :: lines) i Hin)
        as [[count H] Hcost].
      split; [now exists 0%nat, count|].
      destruct Hcost as [Hnil | Hcost]; [now left | right].
      cbv beta in *. lra.
Qed.

(** X8: whatever the scroll offset, the lines [render] draws are a
    contiguous run of the wrapped lines, in their order: some first lines are
    skipped, some are drawn, the rest is skipped. *)
Theorem render_draws_contiguous_lines (activated : bool) :
  exists first count,
    drawn_texts (fst (render font_100 width height PC self scroll activated))
    = firstn count (skipn first (_wrapped_lines self)).
Proof.
  destruct (draw_lines_shape (_wrapped_lines self) 0) as [[first [count H]] _].
  exists first, count. unfold render. cbn [fst].
  rewrite !drawn_texts_app, H. cbn [drawn_texts app].
  destruct activated, PC; cbn [drawn_texts]; now rewrite !app_nil_r.
Qed.

(** X9: the number of lines [render] draws is bounded by the height of the
    viewport, not by the length of the text: for a viewport of non-negative
    height, 72 times the number of draw calls is at most the height plus
    144 (at most two lines more than fit into the viewport). *)
Theorem render_draw_cost (activated : bool) :
  (0 <= tall)%Q ->
  (inject_Z (Z.of_nat (List.length
     (drawn_texts (fst (render font_100 width height PC self scroll activated)))))
   * LINE_HEIGHT <= tall + 2 * LINE_HEIGHT)%Q.
Proof.
  intros Htall. unfold render, LINE_HEIGHT. cbn [fst].
  rewrite !drawn_texts_app. cbn [drawn_texts app].
  assert (E : drawn_texts
                (if activated then if PC then [@RequestClose Font] else [Reboot]
                 else []) = []) by (destruct activated, PC; reflexivity).
  rewrite E, !app_nil_r.
  assert (L : forall calls : list (render_call Font),
             (List.length (drawn_texts calls) <= List.length calls)%nat).
  { induction calls as [|c calls IH]; simpl; [lia|]. destruct c; simpl; lia. }
  destruct (draw_lines_shape (_wrapped_lines self) 0) as [_ [Hnil | Hcost]].
  - rewrite Hnil. cbn [drawn_texts List.length Z.of_nat].
    change (inject_Z 0) with 0%Q. lra.
  - cbv beta in Hcost.
    specialize (L (draws 0%nat (_wrapped_lines self))).
    apply Nat2Z.inj_le in L. rewrite Zle_Qle in L. lra.
Qed.

(** X10: [render] returns what the button reports, asks for a reboot only
    when the button was activated on a device, asks the shell to close only
    when it was activated on a PC, and does neither otherwise. *)
Theorem render_button_effects (activated : bool) :
  let calls := fst (render font_100 width height PC self scroll activated) in
  snd (render font_100 width height PC self scroll activated) = activated
  /\ existsb is_reboot calls = activated && negb PC
  /\ existsb is_request_close calls = activated && PC.
Proof.
  assert (D : forall lines i,
             existsb is_reboot (draws i lines) = false
             /\ existsb is_request_close (draws i lines) = false).
  { induction lines as [|line lines IH]; intros i; [now split|].
    cbn [draw_lines]. destruct (line_skipped _ _); [apply IH|].
    cbn. apply IH. }
  destruct (D (_wrapped_lines self) 0%nat) as [D1 D2].
  unfold render. cbn [fst snd]. split; [reflexivity|].
  rewrite !existsb_app, D1, D2.
  destruct activated, PC; now split.
Qed.

End RenderLines.

(** ** TextWindowRenderer: what the initial offset shows *)

Lemma draw_lines_all {Font : Type} (font_100 : Font) (self : TextWindowRenderer)
    (scroll : Vector2) (lines : list string) : forall i,
  (forall j, (j < List.length lines)%nat ->
     line_skipped self (line_position self scroll (i + j)) = false) ->
  drawn_texts (draw_lines font_100 self scroll i lines) = lines.
Proof.
  induction lines as [|line lines IH]; intros i H; [reflexivity|].
  cbn [draw_lines]. pose proof (H 0%nat ltac:(simpl; lia)) as H0.
  rewrite Nat.add_0_r in H0. rewrite H0. cbn [drawn_texts].
  rewrite IH; [reflexivity|].
  intros j Hj. rewrite Nat.add_succ_comm. apply H. simpl. lia.
Qed.

Section InitialView.

Context {Font : Type}.
Variable measure_text_ex : Font -> string -> Q -> Q -> Vector2.
Variables font font_100 : Font.
Variables width height : Z.
Variable scroll_origin : Vector2.
Variable PC : bool.
Variable text : string.

Local Abbreviation renderer :=
  (TextWindowRenderer__init__ measure_text_ex font width height scroll_origin text).
Local Abbreviation lines := (_wrapped_lines renderer).
Local Abbreviation offset := (_offset (_scroll_panel renderer)).
Local Abbreviation content := (Rectangle.height (_content_rect renderer)).
Local Abbreviation viewport := (Rectangle.height (_textarea_rect renderer)).

Lemma initial_geometry :
  Rectangle.y (_textarea_rect renderer) = 0%Q
  /\ viewport = inject_Z height
  /\ content = (inject_Z (Z.of_nat (List.length lines)) * 72)%Q
  /\ y offset = (- py_max (content - viewport) 0)%Q.
Proof. repeat split. Qed.

(** X11: when the content is taller than a viewport of non-negative height,
    the initial offset puts the bottom edge of the last display line on the
    bottom edge of the viewport, and [render] does not skip that line. *)
Theorem initial_offset_shows_last_line :
  (0 <= height)%Z ->
  (viewport < content)%Q ->
  let last := (List.length lines - 1)%nat in
  (y (line_position renderer offset last) + LINE_HEIGHT == viewport)%Q
  /\ line_skipped renderer (line_position renderer offset last) = false.
Proof.
  intros Hheight Htaller last.
  destruct initial_geometry as [Htop [Hview [Hcontent Hoffset]]].
  assert (Hpos : (0 < content - viewport)%Q) by lra.
  assert (Hh : (0 <= viewport)%Q).
  { rewrite Hview. change 0%Q with (inject_Z 0). now rewrite <- Zle_Qle. }
  assert (Hn : (1 <= List.length lines)%nat).
  { destruct (Nat.eq_dec (List.length lines) 0) as [E|E]; [exfalso|lia].
    rewrite Hcontent in Htaller. rewrite E in Htaller.
    cbn [Z.of_nat] in Htaller. change (inject_Z 0) with 0%Q in Htaller. lra. }
  assert (Hlast : (inject_Z (Z.of_nat last) == inject_Z (Z.of_nat (List.length lines)) - 1)%Q).
  { unfold last. rewrite Nat2Z.inj_sub by exact Hn.
    unfold Z.sub. rewrite inject_Z_plus. change (inject_Z (- Z.of_nat 1)) with (-1)%Q.
    unfold Qminus. reflexivity. }
  assert (Hy : (y (line_position renderer offset last) + LINE_HEIGHT == viewport)%Q).
  { unfold line_position. cbn [y]. rewrite Htop, Hoffset, Hlast.
    rewrite (py_max_zero_pos _ Hpos), Hcontent. unfold LINE_HEIGHT. ring. }
  split; [exact Hy|].
  unfold line_skipped. rewrite Htop. apply orb_false_iff.
  rewrite !Qlt_bool_false. unfold LINE_HEIGHT in *. split; lra.
Qed.

(** X12: when the content is not taller than the viewport, the initial
    offset leaves line [i] at height [72 * i] and a frame rendered with it
    draws every display line. *)
Theorem initial_offset_shows_all_lines (activated : bool) :
  (content <= viewport)%Q ->
  (forall i, (y (line_position renderer offset i)
              == inject_Z (Z.of_nat i) * LINE_HEIGHT)%Q)
  /\ drawn_texts (fst (render font_100 width height PC renderer offset activated))
     = lines.
Proof.
  intros Hfits.
  destruct initial_geometry as [Htop [Hview [Hcontent Hoffset]]].
  assert (Hy : forall i, (y (line_position renderer offset i)
                          == inject_Z (Z.of_nat i) * LINE_HEIGHT)%Q).
  { intros i. unfold line_position. cbn [y]. rewrite Htop, Hoffset.
    rewrite (py_max_zero_nonpos (content - viewport)) by lra. ring. }
  split; [exact Hy|].
  unfold render. cbn [fst]. rewrite !drawn_texts_app. cbn [drawn_texts app].
  rewrite draw_lines_all.
  - destruct activated, PC; cbn [drawn_texts]; now rewrite !app_nil_r.
  - intros j Hj. unfold line_skipped. rewrite Htop. apply orb_false_iff.
    rewrite !Qlt_bool_false, (Hy (0 + j)%nat). cbn [Nat.add].
    assert (Hj0 : (0 <= inject_Z (Z.of_nat j))%Q).
    { change 0%Q with (inject_Z 0). rewrite <- Zle_Qle. lia. }
    assert (Hjn : (inject_Z (Z.of_nat j) + 1 <= inject_Z (Z.of_nat (List.length lines)))%Q).
    { change 1%Q with (inject_Z 1). rewrite <- inject_Z_plus, <- Zle_Qle. lia. }
    rewrite Hcontent in Hfits. unfold LINE_HEIGHT. split; lra.
Qed.

End InitialView.

(** ** TextWindow: what the worker and the creating thread do to the session *)

Lemma renders_push (calls : list gui_call) (c : gui_call) :
  renders (push calls c) = (renders calls + (if is_render c then 1 else 0))%nat.
Proof.
  unfold renders, push. rewrite filter_app, length_app. simpl.
  destruct (is_render c); reflexivity.
Qed.

Section SessionSteps.

Context {Font : Type}.
Variable measure_text_ex : Font -> string -> Q -> Q -> Vector2.
Variable font : Font.
Variables width height : Z.
Variable scroll_origin : Vector2.
Variable getenv_CI : option string.
Variable frames : nat -> tick.

Local Abbreviation step :=
  (_run measure_text_ex font width height scroll_origin getenv_CI frames).
Local Abbreviation steps :=
  (run_worker measure_text_ex font width height scroll_origin getenv_CI frames).
Local Abbreviation closing :=
  (close measure_text_ex font width height scroll_origin getenv_CI frames).
Local Abbreviation reach :=
  (reachable measure_text_ex font width height scroll_origin getenv_CI frames).
Local Abbreviation construct :=
  (TextWindow__init__ measure_text_ex font width height scroll_origin getenv_CI frames).
Local Abbreviation wait_renderer :=
  (wait_for_renderer measure_text_ex font width height scroll_origin getenv_CI frames).
Local Abbreviation wait_exit :=
  (wait_for_exit measure_text_ex font width height scroll_origin getenv_CI frames).
Local Abbreviation new_renderer :=
  (TextWindowRenderer__init__ measure_text_ex font width height scroll_origin).

Lemma run_worker_add (a b : nat) (self : TextWindow) :
  steps (a + b) self = steps b (steps a self).
Proof.
  revert self. induction a as [|a IH]; intros self; simpl; [reflexivity|].
  apply IH.
Qed.

(** *** The stop flag *)









End SessionSteps.

(** ** TextWindow: invariants of a run, construction and waiting *)

Section SessionRuns.

Context {Font : Type}.
Variable measure_text_ex : Font -> string -> Q -> Q -> Vector2.
Variable font : Font.
Variables width height : Z.
Variable scroll_origin : Vector2.
Variable getenv_CI : option string.
Variable frames : nat -> tick.

Local Abbreviation step :=
  (_run measure_text_ex font width height scroll_origin getenv_CI frames).
Local Abbreviation steps :=
  (run_worker measure_text_ex font width height scroll_origin getenv_CI frames).
Local Abbreviation reach :=
  (reachable measure_text_ex font width height scroll_origin getenv_CI frames).
Local Abbreviation construct :=
  (TextWindow__init__ measure_text_ex font width height scroll_origin getenv_CI frames).
Local Abbreviation wait_renderer :=
  (wait_for_renderer measure_text_ex font width height scroll_origin getenv_CI frames).
Local Abbreviation wait_exit :=
  (wait_for_exit measure_text_ex font width height scroll_origin getenv_CI frames).
Local Abbreviation new_renderer :=
  (TextWindowRenderer__init__ measure_text_ex font width height scroll_origin).
Local Abbreviation busy :=
  (fun self : TextWindow => is_None (_renderer self) && is_alive self).

Lemma reach_layout (text : string) (self : TextWindow) :
  reach text self ->
  _text self = text
  /\ match _thread self with
     | Started | WindowOpen => _renderer self = None
     | InLoop _ => _renderer self = Some (new_renderer text)
     | Finished _ =>
         _renderer self = None \/ _renderer self = Some (new_renderer text)
     end.
Proof.
  induction 1 as [|s s' Hs [Htext IH] Hmove]; [now split|].
  destruct Hmove as [s|s]; [|now split].
  unfold _run. destruct (_thread s) as [| |i|o] eqn:Ht.
  - destruct getenv_CI; cbn; auto.
  - cbn. now rewrite Htext.
  - destruct (frames i) as [|raises]; [cbn; auto|].
    destruct (_stop_event s); [cbn; auto|].
    destruct raises; cbn; auto.
  - rewrite Ht. auto.
Qed.

(** X16: the layout is written once: in every state a session can reach,
    the text is the one it was created with; a published renderer has the
    viewport rectangle, the wrapped lines and the content rectangle computed
    from that text at construction; and after any move of the worker or of
    another thread a renderer is still published, with the same two
    rectangles and the same lines.  Nothing is said of the scroll panel,
    which the frames move. *)
Theorem layout_is_written_once (text : string) (self : TextWindow) :
  reach text self ->
  _text self = text
  /\ (forall r, _renderer self = Some r ->
        _textarea_rect r = _textarea_rect (new_renderer text)
        /\ _wrapped_lines r = _wrapped_lines (new_renderer text)
        /\ _content_rect r = _content_rect (new_renderer text))
  /\ (forall next r,
        move measure_text_ex font width height scroll_origin getenv_CI frames
          self next ->
        _renderer self = Some r ->
        exists r',
          _renderer next = Some r'
          /\ _textarea_rect r' = _textarea_rect r
          /\ _wrapped_lines r' = _wrapped_lines r
          /\ _content_rect r' = _content_rect r).
Proof.
  intros Hreach. destruct (reach_layout text self Hreach) as [Htext Hr].
  split; [exact Htext | split].
  - intros r Hsome.
    assert (E : r = new_renderer text).
    { destruct (_thread self); try destruct Hr as [Hr | Hr]; congruence. }
    now rewrite E.
  - intros next r Hmove Hsome.
    assert (Hkeep : _renderer next = _renderer self).
    { destruct Hmove as [s|s]; [|reflexivity].
      unfold _run. destruct (_thread s) as [| |i|o].
      - now destruct getenv_CI.
      - congruence.
      - destruct (frames i) as [|raises]; [reflexivity|].
        destruct (_stop_event s); [reflexivity|]. destruct raises; reflexivity.
      - reflexivity. }
    exists r. rewrite Hkeep. now repeat split.
Qed.

(** *** Polling *)

Lemma scheduled_from_first (pace : nat -> nat) (k d : nat) :
  exists more, scheduled_from pace k d = (pace k + more)%nat.
Proof. destruct d; simpl; [exists 0%nat; lia | eauto]. Qed.

Lemma step_stays_ready (self : TextWindow) :
  busy self = false -> busy (step self) = false.
Proof.
  cbv beta. intros H. apply andb_false_iff in H. apply andb_false_iff.
  destruct H as [H | H].
  - left. unfold _run. destruct (_thread self) as [| |i|o].
    + now destruct getenv_CI.
    + reflexivity.
    + destruct (frames i) as [|raises]; [exact H|].
      destruct (_stop_event self); [exact H|]. now destruct raises.
    + exact H.
  - right. now rewrite (run_finished _ _ _ _ _ _ _ self H).
Qed.

Lemma steps_stay_ready (n : nat) : forall self,
  busy self = false -> busy (steps n self) = false.
Proof.
  induction n as [|n IH]; intros self H; simpl; [exact H|].
  apply IH. now apply step_stays_ready.
Qed.

Lemma wait_for_renderer_result (pace : nat -> nat) (fuel : nat) :
  forall k self ready,
    wait_renderer fuel pace k self = Some ready ->
    busy ready = false /\ exists n, ready = steps n self.
Proof.
  induction fuel as [|fuel IH]; intros k self ready H; [discriminate|].
  cbn [wait_for_renderer] in H.
  destruct (is_None (_renderer (steps (pace k) self))
            && is_alive (steps (pace k) self)) eqn:E.
  - destruct (IH _ _ _ H) as [Hready [n Hn]]. split; [exact Hready|].
    exists (pace k + n)%nat. now rewrite run_worker_add.
  - injection H as <-. split; [exact E | now exists (pace k)].
Qed.

Lemma wait_for_renderer_returns (pace : nat -> nat) (d : nat) :
  forall fuel k self,
    (d < fuel)%nat ->
    busy (steps (scheduled_from pace k d) self) = false ->
    exists ready, wait_renderer fuel pace k self = Some ready.
Proof.
  induction d as [|d IH]; intros fuel k self Hfuel Hready;
    (destruct fuel as [|fuel]; [lia|]); cbn [wait_for_renderer];
    destruct (is_None (_renderer (steps (pace k) self))
              && is_alive (steps (pace k) self)) eqn:E;
    eauto.
  - cbn [scheduled_from] in Hready. cbv beta in Hready. congruence.
  - cbn [scheduled_from] in Hready. rewrite run_worker_add in Hready.
    apply IH; [lia | exact Hready].
Qed.

(** X19: [wait_for_exit] returns as soon as a poll finds the worker
    finished, with the session as the worker left it: if the worker has
    finished after the steps it is given up to some poll, the result is the
    session after those steps. *)
Theorem wait_for_exit_returns (pace : nat -> nat) (d : nat) :
  forall fuel k self,
    (d < fuel)%nat ->
    is_alive (steps (scheduled_from pace k d) self) = false ->
    wait_exit fuel pace k self = Some (steps (scheduled_from pace k d) self).
Proof.
  induction d as [|d IH]; intros fuel k self Hfuel Hdead;
    (destruct fuel as [|fuel]; [lia|]); cbn [wait_for_exit];
    destruct (is_alive (steps (pace k) self)) eqn:E.
  - cbn [scheduled_from] in Hdead. congruence.
  - reflexivity.
  - cbn [scheduled_from] in *. rewrite run_worker_add in *.
    apply IH; [lia | exact Hdead].
  - cbn [scheduled_from]. rewrite run_worker_add.
    now rewrite (run_worker_finished _ _ _ _ _ _ _ _ _ E).
Qed.

(** *** Runs with a window *)

Section Windowed.

Hypothesis windowed : getenv_CI = None.

(** X17: in a run that opens the window, what was asked of the shell is
    fixed by where the worker stands: nothing before it entered [_run]; the
    opening of the window alone before the loop; the opening followed by one
    rendered frame per tick consumed while it is in the loop; and, once it
    has finished, the opening, rendered frames only, and the release as the
    last call.  So no frame is rendered before the window is open or after
    it was released, and a finished worker has released it. *)
Theorem gui_calls_in_order (text : string) (self : TextWindow) :
  reach text self ->
  match _thread self with
  | Started => gui_app self = []
  | WindowOpen => gui_app self = [InitWindow "Text"]
  | InLoop i => gui_app self = InitWindow "Text" :: repeat RenderFrame i
  | Finished _ =>
      exists n,
        gui_app self
        = (InitWindow "Text" :: repeat RenderFrame n ++ [CloseWindow])%list
  end.
Proof.
  induction 1 as [|s s' Hs IH Hmove]; [reflexivity|].
  destruct Hmove as [s|s]; [|exact IH].
  assert (R : forall i, (repeat RenderFrame i ++ [RenderFrame])%list
                        = repeat RenderFrame (S i)).
  { intros i. now rewrite <- repeat_cons. }
  unfold _run. destruct (_thread s) as [| |i|o] eqn:Ht.
  - rewrite windowed. cbn [goto gui _thread gui_app]. now rewrite IH.
  - exact IH.
  - destruct (frames i) as [|raises].
    + cbn [goto gui _thread gui_app]. rewrite IH. now exists i.
    + destruct (_stop_event s); [|destruct raises];
        cbn [goto gui _thread gui_app]; rewrite IH; unfold push.
      * now exists i.
      * exists (S i). cbn [app]. now rewrite R.
      * cbn [app]. now rewrite R.
  - rewrite Ht. exact IH.
Qed.

Lemma reach_published (text : string) (self : TextWindow) :
  reach text self ->
  match _thread self with
  | Started | WindowOpen => _renderer self = None
  | _ => _renderer self = Some (new_renderer text)
  end.
Proof.
  induction 1 as [|s s' Hs IH Hmove]; [reflexivity|].
  pose proof (proj1 (reach_layout text s Hs)) as Htext.
  destruct Hmove as [s|s]; [|exact IH].
  unfold _run. destruct (_thread s) as [| |i|o] eqn:Ht.
  - rewrite windowed. exact IH.
  - cbn. now rewrite Htext.
  - destruct (frames i) as [|raises]; [exact IH|].
    destruct (_stop_event s); [exact IH|]. destruct raises; exact IH.
  - rewrite Ht. exact IH.
Qed.

(** X18: in a run that opens the window, construction never returns without
    the renderer: whenever [TextWindow.__init__] returns, the renderer built
    from the text is published; and it does return once the worker has been
    given two steps. *)
Theorem construction_publishes_renderer (text : string) :
  (forall fuel pace self,
     construct fuel pace text = Some self ->
     _renderer self = Some (new_renderer text) /\ reach text self)
  /\ (forall fuel pace d,
        (d < fuel)%nat -> (2 <= scheduled_from pace 0 d)%nat ->
        exists self, construct fuel pace text = Some self).
Proof.
  split.
  - intros fuel pace self H. unfold TextWindow__init__ in H.
    destruct (wait_for_renderer_result pace fuel 0 _ _ H) as [Hready [n Hn]].
    assert (Hreach : reach text self).
    { rewrite Hn. apply reachable_run_worker. constructor. }
    split; [|exact Hreach].
    pose proof (reach_published text self Hreach) as P.
    cbv beta in Hready. unfold is_alive in Hready.
    destruct (_thread self); try exact P; rewrite P in Hready; discriminate.
  - intros fuel pace d Hfuel Hsched. unfold TextWindow__init__.
    apply (wait_for_renderer_returns pace d); [exact Hfuel|].
    replace (scheduled_from pace 0 d)
      with (2 + (scheduled_from pace 0 d - 2))%nat by lia.
    rewrite run_worker_add. apply steps_stay_ready.
    cbn [run_worker]. unfold _run at 2. cbn. rewrite windowed. reflexivity.
Qed.

(** The ticks consumed and the frames rendered, when tick [last] is the
    closing of the window. *)
Lemma reach_before_closing (text : string) (last : nat) (self : TextWindow) :
  frames last = WindowClosed ->
  reach text self ->
  match _thread self with
  | Started | WindowOpen => renders (gui_app self) = 0%nat
  | InLoop i => (i <= last)%nat /\ renders (gui_app self) = i
  | Finished _ => (renders (gui_app self) <= last)%nat
  end.
Proof.
  intros Hlast. induction 1 as [|s s' Hs IH Hmove]; [reflexivity|].
  destruct Hmove as [s|s]; [|exact IH].
  unfold _run. destruct (_thread s) as [| |i|o] eqn:Ht.
  - rewrite windowed. cbn [goto gui _thread gui_app].
    now rewrite renders_push, IH.
  - cbn [goto publish _thread gui_app]. split; [lia | exact IH].
  - destruct IH as [Hi Hr]. destruct (frames i) as [|raises] eqn:Hf.
    + cbn [goto gui _thread gui_app]. rewrite renders_push, Hr. cbn. lia.
    + assert (Hlt : (i < last)%nat).
      { destruct (Nat.eq_dec i last) as [->|]; [congruence | lia]. }
      destruct (_stop_event s); [|destruct raises];
        cbn [goto gui _thread gui_app]; rewrite ?renders_push, Hr; cbn; lia.
  - rewrite Ht. exact IH.
Qed.

Lemma run_with_stops_reach (text : string) (stops : nat -> bool) (n : nat) :
  forall k self,
    reach text self ->
    reach text (run_with_stops measure_text_ex font width height scroll_origin
                  getenv_CI frames stops k n self).
Proof.
  induction n as [|n IH]; intros k self H; [exact H|].
  cbn [run_with_stops]. apply IH.
  eapply reach_move; [|apply move_worker].
  destruct (stops k); [|exact H].
  eapply reach_move; [exact H | apply move_stop].
Qed.

(** After [m] steps of its own the worker is about to ask for tick [m - 2],
    unless it has finished; requests to stop in between do not change
    that. *)
Lemma run_with_stops_ticks (last : nat) (stops : nat -> bool) (n : nat) :
  frames last = WindowClosed ->
  forall k m self,
    match _thread self with
    | Started => m = 0%nat
    | WindowOpen => m = 1%nat
    | InLoop i => (i + 2 = m)%nat /\ (i <= last)%nat
    | Finished _ => True
    end ->
    match _thread (run_with_stops measure_text_ex font width height scroll_origin
                     getenv_CI frames stops k n self) with
    | Started => (m + n = 0)%nat
    | WindowOpen => (m + n = 1)%nat
    | InLoop i => (i + 2 = m + n)%nat /\ (i <= last)%nat
    | Finished _ => True
    end.
Proof.
  intros Hlast. induction n as [|n IH]; intros k m self H.
  - cbn [run_with_stops]. now rewrite Nat.add_0_r.
  - cbn [run_with_stops]. replace (m + S n)%nat with (S m + n)%nat by lia.
    apply IH.
    set (s := if stops k then stop_event_set self else self).
    assert (Ht : _thread s = _thread self) by (unfold s; now destruct (stops k)).
    rewrite <- Ht in H. clearbody s. clear Ht.
    unfold _run. destruct (_thread s) as [| |i|o] eqn:E.
    + rewrite windowed. cbn. lia.
    + cbn. lia.
    + destruct H as [Hi Hle]. destruct (frames i) as [|raises] eqn:Hf; [now cbn|].
      assert (Hlt : (i < last)%nat).
      { destruct (Nat.eq_dec i last) as [->|]; [congruence | lia]. }
      destruct (_stop_event s); [now cbn|].
      destruct raises; cbn; [trivial | lia].
    + now rewrite E.
Qed.

(** X20: when the user closes the window at tick [last], the worker has
    finished after [last + 3] steps of its own, whether or not and whenever
    other threads set the stop flag in between; it has then rendered at most
    [last] frames and released the window once. *)
Theorem closed_window_ends_the_run (text : string) (last n : nat)
    (stops : nat -> bool) :
  frames last = WindowClosed -> (last + 3 <= n)%nat ->
  let final :=
    run_with_stops measure_text_ex font width height scroll_origin
      getenv_CI frames stops 0 n (created text) in
  is_alive final = false
  /\ (renders (gui_app final) <= last)%nat
  /\ closes (gui_app final) = 1%nat.
Proof.
  intros Hlast Hn final.
  assert (Hreach : reach text final)
    by (apply run_with_stops_reach; constructor).
  pose proof (run_with_stops_ticks last stops n Hlast 0 0 (created text) eq_refl)
    as T.
  fold final in T.
  pose proof (reach_before_closing text last _ Hlast Hreach) as B.
  pose proof (worker_releases_once _ _ _ _ _ _ _ windowed text _ Hreach) as C.
  unfold is_alive. destruct (_thread final) as [| |i|o]; [lia | lia | lia |].
  split; [reflexivity | split; [exact B | exact (proj1 C)]].
Qed.

(** X21: as long as the window delivers frames that render and nobody sets
    the stop flag, the worker stays alive and [wait_for_exit] does not
    return, however many polls it is given. *)
Theorem wait_for_exit_blocks_while_open (self : TextWindow) :
  (forall i, frames i = Frame false) ->
  _stop_event self = false -> is_alive self = true ->
  forall fuel pace k, wait_exit fuel pace k self = None.
Proof.
  intros Hopen Hstop Halive fuel.
  assert (Hstep : forall s, _stop_event s = false -> is_alive s = true ->
                            _stop_event (step s) = false /\ is_alive (step s) = true).
  { intros s Hs Ha. unfold _run, is_alive in *.
    destruct (_thread s) as [| |i|o]; try discriminate.
    - rewrite windowed. now split.
    - now split.
    - rewrite Hopen, Hs. now split. }
  assert (Hsteps : forall n s, _stop_event s = false -> is_alive s = true ->
                     _stop_event (steps n s) = false /\ is_alive (steps n s) = true).
  { induction n as [|n IH]; intros s Hs Ha; simpl; [now split|].
    destruct (Hstep s Hs Ha). now apply IH. }
  revert self Hstop Halive.
  induction fuel as [|fuel IH]; intros self Hstop Halive pace k; [reflexivity|].
  cbn [wait_for_exit]. destruct (Hsteps (pace k) self Hstop Halive) as [Hs Ha].
  rewrite Ha. now apply IH.
Qed.

End Windowed.

End SessionRuns.

(** ** The further properties at concrete inputs *)

Lemma wrap_text_nil_iff_witness :
  all_space (" " ++ nl ++ "  ") = true
  /\ wrap_text fixed_width tt (" " ++ nl ++ "  ") 64 30 = [].
Proof.
  split; [reflexivity|].
  exact (proj2 (wrap_text_nil_iff fixed_width tt 64 30 (" " ++ nl ++ "  ")) eq_refl).
Defined.

Lemma wrap_text_leading_blank_witness :
  all_space ("  " ++ nl ++ " ") = true
  /\ wrap_text fixed_width tt (("  " ++ nl ++ " ") ++ nl ++ "aaaa bb") 64 40
     = wrap_text fixed_width tt "aaaa bb" 64 40.
Proof.
  split; [reflexivity|].
  exact (wrap_text_leading_blank fixed_width tt 64 40 ("  " ++ nl ++ " ") "aaaa bb"
           eq_refl).
Defined.

Lemma wrap_text_trailing_blank_witness :
  all_space "aaaa bb" = false /\ all_space " " = true /\ no_newline " " = true
  /\ wrap_text fixed_width tt ("aaaa bb" ++ nl ++ " ") 64 40
     = (wrap_text fixed_width tt "aaaa bb" 64 40 ++ [""])%list.
Proof.
  split; [reflexivity|]. split; [reflexivity|]. split; [reflexivity|].
  exact (wrap_text_trailing_blank fixed_width tt 64 40 "aaaa bb" " "
           eq_refl eq_refl eq_refl).
Defined.

Lemma wrap_text_all_fitting_witness :
  monotone fixed_width
  /\ Forall (fits fixed_width tt 64 130)
       (split_newline (nl ++ "  ab  " ++ nl ++ nl ++ " c"))
  /\ wrap_text fixed_width tt (nl ++ "  ab  " ++ nl ++ nl ++ " c") 64 130
     = drop_blank_head (map rstrip (split_newline (nl ++ "  ab  " ++ nl ++ nl ++ " c"))).
Proof.
  assert (H : Forall (fits fixed_width tt 64 130)
                (split_newline (nl ++ "  ab  " ++ nl ++ nl ++ " c")))
    by (vm_compute; repeat constructor; discriminate).
  split; [exact fixed_width_monotone|]. split; [exact H|].
  exact (wrap_text_all_fitting fixed_width tt 64 130 fixed_width_monotone _ H).
Defined.

Lemma wrap_text_keeps_indent_witness :
  no_newline "  aaaa bbbb" = true /\ truthy (strip "  aaaa bbbb") = true
  /\ exists first rest t,
       wrap_text fixed_width tt ("x" ++ nl ++ "  aaaa bbbb") 64 50
       = (wrap_text fixed_width tt "x" 64 50 ++ first :: rest)%list
       /\ first = re_match_spaces "  aaaa bbbb" ++ t.
Proof.
  split; [reflexivity|]. split; [reflexivity|].
  exact (proj2 (wrap_text_keeps_indent fixed_width tt 64 50 "x" "  aaaa bbbb"
                  eq_refl eq_refl)).
Defined.

Lemma render_draw_cost_witness :
  (0 <= Rectangle.height (_textarea_rect (three_lines 100)))%Q
  /\ (inject_Z (Z.of_nat (List.length
        (drawn_texts (fst (render tt 200 100 true (three_lines 100)
                             {| x := 0; y := -100 |} false)))))
      * LINE_HEIGHT
      <= Rectangle.height (_textarea_rect (three_lines 100)) + 2 * LINE_HEIGHT)%Q.
Proof.
  assert (H : (0 <= Rectangle.height (_textarea_rect (three_lines 100)))%Q)
    by (vm_compute; discriminate).
  split; [exact H|].
  exact (render_draw_cost tt 200 100 true (three_lines 100)
           {| x := 0; y := -100 |} false H).
Defined.

Lemma initial_offset_shows_last_line_witness :
  (y (line_position (three_lines 100) (_offset (_scroll_panel (three_lines 100))) 2)
   + LINE_HEIGHT == 100)%Q
  /\ line_skipped (three_lines 100)
       (line_position (three_lines 100) (_offset (_scroll_panel (three_lines 100))) 2)
     = false.
Proof.
  assert (H1 : (0 <= 100)%Z) by lia.
  exact (initial_offset_shows_last_line fixed_width tt 200 100 origin
           ("a" ++ nl ++ "b" ++ nl ++ "c") H1 eq_refl).
Defined.

Lemma initial_offset_shows_all_lines_witness :
  drawn_texts (fst (render tt 200 400 false (three_lines 400)
                      (_offset (_scroll_panel (three_lines 400))) true))
  = ["a"; "b"; "c"].
Proof.
  assert (H : (Rectangle.height (_content_rect (three_lines 400))
               <= Rectangle.height (_textarea_rect (three_lines 400)))%Q)
    by (vm_compute; discriminate).
  exact (proj2 (initial_offset_shows_all_lines fixed_width tt tt 200 400 origin
                  false ("a" ++ nl ++ "b" ++ nl ++ "c") true H)).
Defined.




Lemma layout_is_written_once_witness :
  _text (session_after None two_frames 4) = "hi"
  /\ forall r, _renderer (session_after None two_frames 4) = Some r ->
       _wrapped_lines r = ["hi"]
       /\ _content_rect r
          = _content_rect (TextWindowRenderer__init__ fixed_width tt 200 100 origin "hi").
Proof.
  assert (R : reachable fixed_width tt 200 100 origin None two_frames "hi"
                (session_after None two_frames 4))
    by (apply reachable_run_worker; constructor).
  destruct (layout_is_written_once fixed_width tt 200 100 origin None
              two_frames "hi" _ R) as [H1 [H2 _]].
  split; [exact H1|]. intros r Hr. destruct (H2 r Hr) as [_ [Hlines Hcontent]].
  split; [exact Hlines | exact Hcontent].
Defined.

Lemma gui_calls_in_order_witness :
  (exists n,
     gui_app stopped_session
     = (InitWindow "Text" :: repeat RenderFrame n ++ [CloseWindow])%list)
  /\ gui_app (session_after None endless_frames 6)
     = InitWindow "Text" :: repeat RenderFrame 4.
Proof.
  split.
  - apply (gui_calls_in_order fixed_width tt 200 100 origin None endless_frames
             eq_refl "hi" stopped_session).
    eapply reach_move; [|apply move_worker].
    eapply reach_move; [|apply move_stop].
    apply reachable_run_worker. constructor.
  - apply (gui_calls_in_order fixed_width tt 200 100 origin None endless_frames
             eq_refl "hi" (session_after None endless_frames 6)).
    apply reachable_run_worker. constructor.
Defined.

Lemma construction_publishes_renderer_witness :
  exists self,
    TextWindow__init__ fixed_width tt 200 100 origin None two_frames
      3 one_step_each "hi" = Some self
    /\ _renderer self
       = Some (TextWindowRenderer__init__ fixed_width tt 200 100 origin "hi").
Proof.
  assert (Hfuel : (1 < 3)%nat) by lia.
  assert (Hsched : (2 <= scheduled_from one_step_each 0 1)%nat) by (vm_compute; lia).
  destruct (construction_publishes_renderer fixed_width tt 200 100 origin None
              two_frames eq_refl "hi") as [Hsafe Hlive].
  destruct (Hlive 3%nat one_step_each 1%nat Hfuel Hsched) as [self Hself].
  exists self. split; [exact Hself | exact (proj1 (Hsafe _ _ _ Hself))].
Defined.

Lemma wait_for_exit_returns_witness :
  wait_for_exit fixed_width tt 200 100 origin None five_frames
    8 one_step_each 0 (created "hi")
  = Some (session_after None five_frames 8)
  /\ is_alive (session_after None five_frames 8) = false.
Proof.
  assert (Hfuel : (7 < 8)%nat) by lia.
  split; [|reflexivity].
  exact (wait_for_exit_returns fixed_width tt 200 100 origin None five_frames
           one_step_each 7 8 0 (created "hi") Hfuel eq_refl).
Defined.

Lemma closed_window_ends_the_run_witness :
  (* nobody asks to stop: five frames are rendered *)
  (is_alive (run_with_stops fixed_width tt 200 100 origin None five_frames
               never_stop 0 8 (created "hi")) = false
   /\ gui_app (run_with_stops fixed_width tt 200 100 origin None five_frames
                 never_stop 0 8 (created "hi"))
      = (InitWindow "Text" :: repeat RenderFrame 5 ++ [CloseWindow])%list
   /\ closes (gui_app (run_with_stops fixed_width tt 200 100 origin None five_frames
                         never_stop 0 8 (created "hi"))) = 1%nat)
  (* somebody asks to stop before the worker's fifth step: two frames *)
  /\ (is_alive (run_with_stops fixed_width tt 200 100 origin None five_frames
                  (stop_before 4) 0 8 (created "hi")) = false
      /\ gui_app (run_with_stops fixed_width tt 200 100 origin None five_frames
                    (stop_before 4) 0 8 (created "hi"))
         = (InitWindow "Text" :: repeat RenderFrame 2 ++ [CloseWindow])%list
      /\ (renders (gui_app (run_with_stops fixed_width tt 200 100 origin None
                              five_frames (stop_before 4) 0 8 (created "hi")))
          <= 5)%nat).
Proof.
  assert (Hn : (5 + 3 <= 8)%nat) by lia.
  destruct (closed_window_ends_the_run fixed_width tt 200 100 origin None
              five_frames eq_refl "hi" 5 8 never_stop eq_refl Hn) as [A1 [_ A3]].
  destruct (closed_window_ends_the_run fixed_width tt 200 100 origin None
              five_frames eq_refl "hi" 5 8 (stop_before 4) eq_refl Hn) as [B1 [B2 _]].
  split; [split; [exact A1 | split; [reflexivity | exact A3]]
         | split; [exact B1 | split; [reflexivity | exact B2]]].
Defined.

Lemma wait_for_exit_blocks_while_open_witness :
  wait_for_exit fixed_width tt 200 100 origin None endless_frames
    50 one_step_each 0 (session_after None endless_frames 2) = None.
Proof.
  exact (wait_for_exit_blocks_while_open fixed_width tt 200 100 origin None
           endless_frames eq_refl (session_after None endless_frames 2)
           (fun _ => eq_refl) eq_refl eq_refl 50%nat one_step_each 0%nat).
Defined.
